(** * A shallow embedding of [src/lichess.rs] (watchlichesstv)

    The handler [LichessTV] receives chunks of the Lichess TV feed from curl
    ([Handler::write]), decodes them with [serde_json], updates its fields and
    redraws the board on a notcurses plane.

    Rust's [Result] is [result]; a call of [unwrap] on an [Err] is a panic,
    modelled by the [Panic] outcome of the state monad [M].  The state of the
    monad is a [World]: the fields of the handler, the size of the notcurses
    plane, the cells drawn on it, and the log of the strings handed to the
    notation parser [BoardState::from_fen]. *)

From Stdlib Require Import String Ascii List Bool ZArith Lia.
Import ListNotations.
Open Scope string_scope.

(* ------------------------------------------------------------------ *)
(** ** Rust results and panics *)

Inductive result (A E : Type) : Type :=
| Ok (a : A)
| Err (e : E).
Arguments Ok {A E} a.
Arguments Err {A E} e.

(** Which [unwrap] (or arithmetic check) of the program panicked. *)
Inductive panic_site : Type :=
| UnwrapFromUtf8          (* std::str::from_utf8(data).unwrap()        *)
| UnwrapSerde             (* serde_json::from_str(json_data).unwrap()  *)
| UnwrapFromFen           (* BoardState::from_fen(..).unwrap()          *)
| UnwrapSurface           (* notcurses calls (putstr_at_xy, ...)        *)
| ArithOverflow.          (* u32 overflow check of a debug build        *)

Inductive outcome (A : Type) : Type :=
| Ret (a : A)
| Panic (p : panic_site).
Arguments Ret {A} a.
Arguments Panic {A} p.

(** u32 arithmetic with the overflow checks of a debug build. *)
Definition u32_max : Z := 4294967295.

Definition sub_u32 (a b : Z) : outcome Z :=
  if (b <=? a)%Z then Ret (a - b)%Z else Panic ArithOverflow.

Definition add_u32 (a b : Z) : outcome Z :=
  if (a + b <=? u32_max)%Z then Ret (a + b)%Z else Panic ArithOverflow.

(* ------------------------------------------------------------------ *)
(** ** std::str::from_utf8

    Well-formed UTF-8 as [std::str::from_utf8] checks it (Unicode, table 3-7):
    no overlong forms, no surrogates, nothing above U+10FFFF. *)

Definition cont (b : nat) : bool := (128 <=? b)%nat && (b <=? 191)%nat.
Definition in_range (lo hi b : nat) : bool := (lo <=? b)%nat && (b <=? hi)%nat.

Fixpoint utf8_valid (l : list nat) : bool :=
  match l with
  | [] => true
  | b :: r =>
      if (b <? 128)%nat then utf8_valid r
      else if in_range 194 223 b then
        match r with c1 :: r1 => cont c1 && utf8_valid r1 | _ => false end
      else if in_range 224 239 b then
        match r with
        | c1 :: c2 :: r2 =>
            (if (b =? 224)%nat then in_range 160 191 c1
             else if (b =? 237)%nat then in_range 128 159 c1
             else cont c1) && cont c2 && utf8_valid r2
        | _ => false
        end
      else if in_range 240 244 b then
        match r with
        | c1 :: c2 :: c3 :: r3 =>
            (if (b =? 240)%nat then in_range 144 191 c1
             else if (b =? 244)%nat then in_range 128 143 c1
             else cont c1) && cont c2 && cont c3 && utf8_valid r3
        | _ => false
        end
      else false
  end.

Inductive Utf8Error := Utf8Error_invalid.

Definition from_utf8 (data : list Byte.byte) : result string Utf8Error :=
  if utf8_valid (map Byte.to_nat data) then Ok (string_of_list_byte data)
  else Err Utf8Error_invalid.

(* ------------------------------------------------------------------ *)
(** ** serde_json: the text parser

    JSON values as [serde_json] reads them.  Numbers with a fraction or an
    exponent are kept as [JFloat] without their value: the program only
    deserializes integers ([u32]) and rejects floats there.  The escape
    [\u] is not modelled (such a string is rejected). *)

#[local] Set Warnings "-register-all".

Inductive json : Type :=
| JNull
| JBool (b : bool)
| JNum (z : Z)
| JFloat
| JStr (s : string)
| JArr (l : list json)
| JObj (kv : list (string * json)).

Definition is_ws (c : ascii) : bool :=
  match c with
  | " "%char => true
  | "009"%char => true
  | "010"%char => true
  | "013"%char => true
  | _ => false
  end.

Fixpoint skip_ws (s : string) : string :=
  match s with
  | String c r => if is_ws c then skip_ws r else s
  | EmptyString => s
  end.

Definition is_digit (c : ascii) : bool :=
  let n := nat_of_ascii c in (48 <=? n)%nat && (n <=? 57)%nat.

Definition digit_val (c : ascii) : Z := Z.of_nat (nat_of_ascii c - 48).

(** The characters of a string literal up to its closing quote. *)
Fixpoint parse_str_body (s : string) : option (string * string) :=
  match s with
  | EmptyString => None
  | String "034" r => Some (EmptyString, r)
  | String "\" r =>
      match r with
      | String e r' =>
          let esc :=
            match e with
            | "034"%char => Some "034"%char
            | "\"%char => Some "\"%char
            | "/"%char => Some "/"%char
            | "b"%char => Some "008"%char
            | "f"%char => Some "012"%char
            | "n"%char => Some "010"%char
            | "r"%char => Some "013"%char
            | "t"%char => Some "009"%char
            | _ => None
            end in
          match esc, parse_str_body r' with
          | Some c, Some (body, rest) => Some (String c body, rest)
          | _, _ => None
          end
      | EmptyString => None
      end
  | String c r =>
      if (nat_of_ascii c <? 32)%nat then None
      else match parse_str_body r with
           | Some (body, rest) => Some (String c body, rest)
           | None => None
           end
  end.

(** A run of digits, with its value and the number of digits read. *)
Fixpoint digits (acc : Z) (k : nat) (s : string) : Z * nat * string :=
  match s with
  | String c r =>
      if is_digit c then digits (acc * 10 + digit_val c)%Z (S k) r
      else (acc, k, s)
  | EmptyString => (acc, k, s)
  end.

(** Fraction and exponent of a number: [Some rest] when present and
    well formed, [None] when malformed; [s] is returned when absent. *)
Definition parse_frac_exp (s : string) : option (bool * string) :=
  let after_frac :=
    match s with
    | String "." r =>
        match digits 0 0 r with
        | (_, O, _) => None
        | (_, _, r') => Some (true, r')
        end
    | _ => Some (false, s)
    end in
  match after_frac with
  | None => None
  | Some (fr, s1) =>
      match s1 with
      | String e r =>
          if (Ascii.eqb e "e"%char || Ascii.eqb e "E"%char) then
            let r1 := match r with
                      | String "+" r2 => r2
                      | String "-" r2 => r2
                      | _ => r end in
            match digits 0 0 r1 with
            | (_, O, _) => None
            | (_, _, r') => Some (true, r')
            end
          else Some (fr, s1)
      | EmptyString => Some (fr, s1)
      end
  end.

Definition parse_number (s : string) : option (json * string) :=
  let '(neg, s0) := match s with
                    | String "-" r => (true, r)
                    | _ => (false, s)
                    end in
  let int_part :=
    match s0 with
    | String "0" r => Some (0%Z, r)
    | String c _ =>
        if is_digit c then
          match digits 0 0 s0 with (v, _, r) => Some (v, r) end
        else None
    | EmptyString => None
    end in
  match int_part with
  | None => None
  | Some (v, r) =>
      match parse_frac_exp r with
      | None => None
      | Some (true, r') => Some (JFloat, r')
      | Some (false, r') => Some (JNum (if neg then Z.opp v else v), r')
      end
  end.

Definition parse_lit (lit : string) (v : json) (s : string) : option (json * string) :=
  if String.prefix lit s
  then Some (v, substring (String.length lit) (String.length s - String.length lit) s)
  else None.

(** Recursive descent, with fuel; [from_str] gives it one unit of fuel per
    character of the input, and every nested call consumes a character. *)
Fixpoint parse_value (fuel : nat) (s : string) : option (json * string) :=
  match fuel with
  | O => None
  | S f =>
      match skip_ws s with
      | String "{" r =>
          match skip_ws r with
          | String "}" r' => Some (JObj [], r')
          | r' => match parse_members f r' with
                  | Some (kv, r'') => Some (JObj kv, r'')
                  | None => None
                  end
          end
      | String "[" r =>
          match skip_ws r with
          | String "]" r' => Some (JArr [], r')
          | r' => match parse_elements f r' with
                  | Some (l, r'') => Some (JArr l, r'')
                  | None => None
                  end
          end
      | String "034" r =>
          match parse_str_body r with
          | Some (str, r') => Some (JStr str, r')
          | None => None
          end
      | String "t" _ as s' => parse_lit "true" (JBool true) s'
      | String "f" _ as s' => parse_lit "false" (JBool false) s'
      | String "n" _ as s' => parse_lit "null" JNull s'
      | s' => parse_number s'
      end
  end
(** [key : value] pairs up to the closing brace. *)
with parse_members (fuel : nat) (s : string) : option (list (string * json) * string) :=
  match fuel with
  | O => None
  | S f =>
      match skip_ws s with
      | String "034" r =>
          match parse_str_body r with
          | Some (k, r1) =>
              match skip_ws r1 with
              | String ":" r2 =>
                  match parse_value f r2 with
                  | Some (v, r3) =>
                      match skip_ws r3 with
                      | String "," r4 =>
                          match parse_members f r4 with
                          | Some (kv, r5) => Some ((k, v) :: kv, r5)
                          | None => None
                          end
                      | String "}" r4 => Some ([(k, v)], r4)
                      | _ => None
                      end
                  | None => None
                  end
              | _ => None
              end
          | None => None
          end
      | _ => None
      end
  end
(** Array elements up to the closing bracket. *)
with parse_elements (fuel : nat) (s : string) : option (list json * string) :=
  match fuel with
  | O => None
  | S f =>
      match parse_value f s with
      | Some (v, r) =>
          match skip_ws r with
          | String "," r' =>
              match parse_elements f r' with
              | Some (l, r'') => Some (v :: l, r'')
              | None => None
              end
          | String "]" r' => Some ([v], r')
          | _ => None
          end
      | None => None
      end
  end.

(* ------------------------------------------------------------------ *)
(** ** serde_json: [from_str] and the derived deserializers *)

Inductive serde_error : Type :=
| EofWhileParsing
| SyntaxError
| TrailingCharacters
| MissingField (name : string)
| DuplicateField (name : string)
| UnknownVariant (name : string)
| InvalidType
| InvalidValue
| InvalidLength.

Fixpoint all_ws (s : string) : bool :=
  match s with
  | EmptyString => true
  | String c r => is_ws c && all_ws r
  end.

(** [serde_json::from_str::<T>]: one JSON value, then only whitespace. *)
Definition from_str {T} (de : json -> result T serde_error) (s : string)
  : result T serde_error :=
  match skip_ws s with
  | EmptyString => Err EofWhileParsing
  | _ =>
      match parse_value (S (String.length s)) s with
      | None => Err SyntaxError
      | Some (v, rest) => if all_ws rest then de v else Err TrailingCharacters
      end
  end.

Notation "'let?' x ':=' m 'in' k" :=
  (match m with Ok x => k | Err e => Err e end)
  (at level 200, x name, m at level 100, k at level 200).

(** A field looked up in a map: absent, present once, or repeated. *)
Inductive field_lookup := FAbsent | FOne (v : json) | FDup.

Definition lookup_field (k : string) (kv : list (string * json)) : field_lookup :=
  match filter (fun p => String.eqb (fst p) k) kv with
  | [] => FAbsent
  | [(_, v)] => FOne v
  | _ => FDup
  end.

(** The raw values of a struct's fields, in declaration order: from a map
    by name (unknown keys ignored), or from a sequence by position, as the
    derived [Deserialize] of a struct accepts both. *)
Definition struct_fields (names : list string) (v : json)
  : result (list (option json)) serde_error :=
  match v with
  | JObj kv =>
      fold_right
        (fun k acc =>
           let? l := acc in
           match lookup_field k kv with
           | FAbsent => Ok (None :: l)
           | FOne x => Ok (Some x :: l)
           | FDup => Err (DuplicateField k)
           end)
        (Ok []) names
  | JArr l =>
      if Nat.eqb (length l) (length names) then Ok (map Some l)
      else Err InvalidLength
  | _ => Err InvalidType
  end.

Definition required {T} (name : string) (de : json -> result T serde_error)
  (f : option json) : result T serde_error :=
  match f with
  | Some v => de v
  | None => Err (MissingField name)
  end.

(** An [Option<T>] field: absent or [null] give [None]. *)
Definition optional {T} (de : json -> result T serde_error)
  (f : option json) : result (option T) serde_error :=
  match f with
  | None | Some JNull => Ok None
  | Some v => let? x := de v in Ok (Some x)
  end.

Definition de_string (v : json) : result string serde_error :=
  match v with JStr s => Ok s | _ => Err InvalidType end.

Definition de_u32 (v : json) : result Z serde_error :=
  match v with
  | JNum z => if (0 <=? z)%Z && (z <=? u32_max)%Z then Ok z else Err InvalidValue
  | _ => Err InvalidType
  end.

Definition de_vec {T} (de : json -> result T serde_error) (v : json)
  : result (list T) serde_error :=
  match v with
  | JArr l =>
      fold_right (fun x acc => let? y := de x in let? ys := acc in Ok (y :: ys))
        (Ok []) l
  | _ => Err InvalidType
  end.

(* ------------------------------------------------------------------ *)
(** ** The data model of [lichess.rs] *)

(** [#[serde(rename_all = "lowercase")] enum PlayerKind]. *)
Inductive PlayerKind := Black | White.

Definition de_PlayerKind (v : json) : result PlayerKind serde_error :=
  match v with
  | JStr tag =>
      if String.eqb tag "black" then Ok Black
      else if String.eqb tag "white" then Ok White
      else Err (UnknownVariant tag)
  | _ => Err InvalidType
  end.

Record User := mkUser {
  user_name : string;
  user_title : option string;
  user_id : string }.

Record Player := mkPlayer {
  player_color : PlayerKind;
  player_user : User;
  player_rating : Z;
  player_seconds : Z }.

Record FeaturedTVGameSummary := mkSummary {
  summary_id : string;
  summary_orientation : PlayerKind;
  summary_players : list Player;
  summary_fen : string }.

(** [lm], [wc], [bc] are the serde names of [last_move], [white_clock],
    [black_clock]. *)
Record FeaturedTVGameUpdate := mkUpdate {
  update_fen : string;
  update_last_move : string;
  update_white_clock : Z;
  update_black_clock : Z }.

(** [#[serde(tag = "t", content = "d")] enum FeaturedTVGameFeed]. *)
Inductive FeaturedTVGameFeed :=
| FeaturedTVGameSummary_ (s : FeaturedTVGameSummary)
| FeaturedTVGameUpdate_ (u : FeaturedTVGameUpdate).

Definition de_User (v : json) : result User serde_error :=
  let? fs := struct_fields ["name"; "title"; "id"] v in
  match fs with
  | [n; t; i] =>
      let? n := required "name" de_string n in
      let? t := optional de_string t in
      let? i := required "id" de_string i in
      Ok (mkUser n t i)
  | _ => Err InvalidLength
  end.

Definition de_Player (v : json) : result Player serde_error :=
  let? fs := struct_fields ["color"; "user"; "rating"; "seconds"] v in
  match fs with
  | [c; u; r; s] =>
      let? c := required "color" de_PlayerKind c in
      let? u := required "user" de_User u in
      let? r := required "rating" de_u32 r in
      let? s := required "seconds" de_u32 s in
      Ok (mkPlayer c u r s)
  | _ => Err InvalidLength
  end.

Definition de_Summary (v : json) : result FeaturedTVGameSummary serde_error :=
  let? fs := struct_fields ["id"; "orientation"; "players"; "fen"] v in
  match fs with
  | [i; o; p; f] =>
      let? i := required "id" de_string i in
      let? o := required "orientation" de_PlayerKind o in
      let? p := required "players" (de_vec de_Player) p in
      let? f := required "fen" de_string f in
      Ok (mkSummary i o p f)
  | _ => Err InvalidLength
  end.

Definition de_Update (v : json) : result FeaturedTVGameUpdate serde_error :=
  let? fs := struct_fields ["fen"; "lm"; "wc"; "bc"] v in
  match fs with
  | [f; l; w; b] =>
      let? f := required "fen" de_string f in
      let? l := required "lm" de_string l in
      let? w := required "wc" de_u32 w in
      let? b := required "bc" de_u32 b in
      Ok (mkUpdate f l w b)
  | _ => Err InvalidLength
  end.

(** The adjacently tagged enum: the tag under "t" selects the variant
    ("featured" or "fen"), the payload is under "d"; other keys of the map
    are ignored.  The sequence form [tag, payload] is accepted as well. *)
Definition is_known_tag (tag : json) : bool :=
  match tag with
  | JStr t => String.eqb t "featured" || String.eqb t "fen"
  | _ => false
  end.

Definition de_variant (tag : json) (content : json)
  : result FeaturedTVGameFeed serde_error :=
  match tag with
  | JStr t =>
      if String.eqb t "featured" then
        let? s := de_Summary content in Ok (FeaturedTVGameSummary_ s)
      else if String.eqb t "fen" then
        let? u := de_Update content in Ok (FeaturedTVGameUpdate_ u)
      else Err (UnknownVariant t)
  | _ => Err InvalidType
  end.

Definition de_FeaturedTVGameFeed (v : json) : result FeaturedTVGameFeed serde_error :=
  match v with
  | JObj kv =>
      match lookup_field "t" kv, lookup_field "d" kv with
      | FDup, _ => Err (DuplicateField "t")
      | _, FDup => Err (DuplicateField "d")
      | FAbsent, _ => Err (MissingField "t")
      | FOne t, FAbsent =>
          if is_known_tag t then Err (MissingField "d") else de_variant t JNull
      | FOne t, FOne d => de_variant t d
      end
  | JArr [t; d] => de_variant t d
  | JArr _ => Err InvalidLength
  | _ => Err InvalidType
  end.

(** [serde_json::from_str::<FeaturedTVGameFeed>]. *)
Definition decode_feed (s : string) : result FeaturedTVGameFeed serde_error :=
  from_str de_FeaturedTVGameFeed s.

(* ------------------------------------------------------------------ *)
(** ** The [fen] crate: the part of [BoardState] the program reads

    [BoardState::pieces] holds the 64 squares rank 1 first: a1, b1, ...,
    h1, a2, ..., h8, so square [i] is on file [i mod 8] and rank
    [i / 8 + 1], the reverse order of the ranks in the placement field of the
    notation.  The other fields
    of [BoardState] (side to move, castling, ...) are never read by the
    program and are left out. *)

Inductive Color := CWhite | CBlack.
Inductive PieceKind := Pawn | Knight | Bishop | Rook | Queen | King.
Record Piece := mkPiece { kind : PieceKind; color : Color }.
Record BoardState := mkBoardState { pieces : list (option Piece) }.
Inductive FenError := FenError_invalid.

(** A stand-in for [BoardState::from_fen], used where a concrete parser is
    needed: it reads the placement field (up to the first space; eight ranks
    separated by '/', each rank eight squares long, a digit for a run of
    empty squares) and stores its squares rank 1 first, as the crate does.
    Unlike the crate it does not require the five other fields, and it
    rejects a rank shorter than eight squares where the crate pads it. *)
Module FenModel.

Definition piece_of_char (c : ascii) : option Piece :=
  match c with
  | "P"%char => Some (mkPiece Pawn CWhite)
  | "N"%char => Some (mkPiece Knight CWhite)
  | "B"%char => Some (mkPiece Bishop CWhite)
  | "R"%char => Some (mkPiece Rook CWhite)
  | "Q"%char => Some (mkPiece Queen CWhite)
  | "K"%char => Some (mkPiece King CWhite)
  | "p"%char => Some (mkPiece Pawn CBlack)
  | "n"%char => Some (mkPiece Knight CBlack)
  | "b"%char => Some (mkPiece Bishop CBlack)
  | "r"%char => Some (mkPiece Rook CBlack)
  | "q"%char => Some (mkPiece Queen CBlack)
  | "k"%char => Some (mkPiece King CBlack)
  | _ => None
  end.

(** The squares of the placement field, in order, or [None] on a bad
    character; the field ends at the first space. *)
Fixpoint placement (s : string) : option (list (list (option Piece))) :=
  match s with
  | EmptyString | String " " _ => Some [[]]
  | String "/" r =>
      match placement r with Some rs => Some ([] :: rs) | None => None end
  | String c r =>
      let sq := if is_digit c then
                  let k := (nat_of_ascii c - 48)%nat in
                  if (1 <=? k)%nat && (k <=? 8)%nat then Some (repeat None k) else None
                else match piece_of_char c with
                     | Some p => Some [Some p]
                     | None => None
                     end in
      match sq, placement r with
      | Some l, Some (rank :: rs) => Some ((l ++ rank)%list :: rs)
      | _, _ => None
      end
  end.

Definition from_fen (s : string) : result BoardState FenError :=
  match placement s with
  | Some ranks =>
      if Nat.eqb (length ranks) 8 && forallb (fun r => Nat.eqb (length r) 8) ranks
      then Ok (mkBoardState (concat (rev ranks)))
      else Err FenError_invalid
  | None => Err FenError_invalid
  end.

End FenModel.

(* ------------------------------------------------------------------ *)
(** ** The handler and its world *)

Record LichessTV := mkLichessTV {
  players : list Player;
  last_move : string;
  board : BoardState;
  board_orientation : PlayerKind;
  white_clock : Z;
  black_clock : Z }.

Record PositionOffset := mkPositionOffset { row : Z; column : Z }.

Record Rgb := mkRgb { red : Z; green : Z; blue : Z }.

(** One [putstr_at_xy] on the board plane, with the background set before. *)
Record Cell := mkCell {
  cell_column : Z;
  cell_row : Z;
  cell_bg : Rgb;
  cell_text : string }.

(** [plane_size] is [nc_board_plane.size()], as (width, height); [drawn] is
    what the board plane shows; [fen_log] lists, oldest first, the strings
    handed to [BoardState::from_fen]. *)
Record World := mkWorld {
  tv : LichessTV;
  plane_size : Z * Z;
  drawn : list Cell;
  fen_log : list string }.

Definition M (A : Type) : Type := World -> outcome A * World.

Definition ret {A} (a : A) : M A := fun w => (Ret a, w).

Definition bind {A B} (m : M A) (k : A -> M B) : M B :=
  fun w => match m w with
           | (Ret a, w') => k a w'
           | (Panic p, w') => (Panic p, w')
           end.

Notation "'do' x <- m ; k" := (bind m (fun x => k))
  (at level 200, x name, m at level 100, k at level 200).

Definition lift {A} (o : outcome A) : M A := fun w => (o, w).

Definition unwrap {A E} (site : panic_site) (r : result A E) : M A :=
  fun w => match r with Ok a => (Ret a, w) | Err _ => (Panic site, w) end.

Definition get_world : M World := fun w => (Ret w, w).

Definition modify_tv (f : LichessTV -> LichessTV) : M unit :=
  fun w => (Ret tt, mkWorld (f (tv w)) (plane_size w) (drawn w) (fen_log w)).

Definition set_board (b : BoardState) (t : LichessTV) : LichessTV :=
  mkLichessTV (players t) (last_move t) b (board_orientation t) (white_clock t) (black_clock t).
Definition set_board_orientation (o : PlayerKind) (t : LichessTV) : LichessTV :=
  mkLichessTV (players t) (last_move t) (board t) o (white_clock t) (black_clock t).
Definition set_players (p : list Player) (t : LichessTV) : LichessTV :=
  mkLichessTV p (last_move t) (board t) (board_orientation t) (white_clock t) (black_clock t).
Definition set_last_move (m : string) (t : LichessTV) : LichessTV :=
  mkLichessTV (players t) m (board t) (board_orientation t) (white_clock t) (black_clock t).
Definition set_white_clock (c : Z) (t : LichessTV) : LichessTV :=
  mkLichessTV (players t) (last_move t) (board t) (board_orientation t) c (black_clock t).
Definition set_black_clock (c : Z) (t : LichessTV) : LichessTV :=
  mkLichessTV (players t) (last_move t) (board t) (board_orientation t) (white_clock t) c.

(** [self.nc_board_plane.into_ref_mut().erase()]. *)
Definition erase : M unit :=
  fun w => (Ret tt, mkWorld (tv w) (plane_size w) [] (fen_log w)).

(** Whether a byte continues a UTF-8 sequence (0x80 to 0xBF). *)
Definition is_continuation (c : ascii) : bool :=
  (128 <=? nat_of_ascii c)%nat && (nat_of_ascii c <=? 191)%nat.

(** The columns a text takes on the plane, one per character: every text the
    program writes is made of blanks and chess symbols (U+2654 to U+265F),
    each one column wide. *)
Fixpoint text_columns (s : string) : Z :=
  match s with
  | EmptyString => 0
  | String c r => ((if is_continuation c then 0 else 1) + text_columns r)%Z
  end.

(** [pieces_board.putstr_at_xy(Some(column), Some(row), text).unwrap()] on
    the child plane, which has the size of the board plane.
    [ncplane_putstr_yx] writes the text one character after the other and
    returns the columns written, negated when a character after the first
    one fails: a start cell outside the plane writes nothing and gives
    [Ok(0)], so the unwrap passes; a text that starts on the plane but runs
    past its right edge fails after its first character, and the unwrap
    panics. *)
Definition putstr_at_xy (bg : Rgb) (column row : Z) (text : string) : M unit :=
  fun w =>
    let '(width, height) := plane_size w in
    if (0 <=? column)%Z && (column <? width)%Z && (0 <=? row)%Z && (row <? height)%Z
    then
      if (column + text_columns text <=? width)%Z
      then (Ret tt, mkWorld (tv w) (plane_size w) (drawn w ++ [mkCell column row bg text])%list
                      (fen_log w))
      else (Panic UnwrapSurface, w)
    else (Ret tt, w).

(* ------------------------------------------------------------------ *)
(** ** [LichessTV::draw_chess_board] *)

(** The [match a_piece] of the loop: white pieces centred, black pieces
    followed by two blanks.  (The source's [_ => "   "] arm under
    [piece.kind] has no case left here: [PieceKind] has six kinds.) *)
Definition piece_character (a_piece : option Piece) : string :=
  match a_piece with
  | Some piece =>
      match kind piece, color piece with
      | Pawn, CWhite => " ♙ "   | Pawn, CBlack => "♟  "
      | Knight, CWhite => " ♘ " | Knight, CBlack => "♞  "
      | Bishop, CWhite => " ♗ " | Bishop, CBlack => "♝  "
      | Rook, CWhite => " ♖ "   | Rook, CBlack => "♜  "
      | Queen, CWhite => " ♕ "  | Queen, CBlack => "♛  "
      | King, CWhite => " ♔ "   | King, CBlack => "♚  "
      end
  | None => "   "
  end.

Definition square_selector (n : nat) : nat := Nat.land (n + n / 8) 1.

(** [match (n + (n / 8)) & 1 == 0 { true => .., false => .. }]. *)
Definition square_channel (n : nat) : Rgb :=
  if Nat.eqb (square_selector n) 0 then mkRgb 195 160 130 else mkRgb 242 225 195.

(** The body of [for (n, a_piece) in self.board.pieces.iter().enumerate()],
    with [width] the first component of [plane_size]. *)
Fixpoint draw_squares (width : Z) (n : nat) (sqs : list (option Piece))
  (position : PositionOffset) : M unit :=
  match sqs with
  | [] => ret tt
  | a_piece :: rest =>
      do position <-
        (if Nat.eqb (n mod 8) 0 then
           do r <- lift (add_u32 (row position) 1);
           do c <- lift (sub_u32 (width / 2) 12);
           ret (mkPositionOffset r c)
         else
           do c <- lift (add_u32 (column position) 3);
           ret (mkPositionOffset (row position) c));
      do _ <- putstr_at_xy (square_channel n) (column position) (row position)
                (piece_character a_piece);
      draw_squares width (S n) rest position
  end.

(** Creating the child plane, moving it to (0, 0) and the two [render]
    calls are not modelled as failing. *)
Definition draw_chess_board : M unit :=
  do w <- get_world;
  let '(width, height) := plane_size w in
  do r0 <- lift (sub_u32 (height / 2) 4);
  do c0 <- lift (sub_u32 (width / 2) 12);
  draw_squares width 0 (pieces (board (tv w))) (mkPositionOffset r0 c0).

(* ------------------------------------------------------------------ *)
(** ** [LichessTV::new] and [Handler::write] *)

(** curl's [WriteError] (only [Pause] exists). *)
Inductive WriteError := WriteError_Pause.

Definition start_fen : string :=
  "rnbqkbnr/pppppppp/8/8/8/8/PPPPPPPP/RNBQKBNR w KQkq - 0 1".

Section Handler.

(** [BoardState::from_fen] of the [fen] crate. *)
Variable from_fen : string -> result BoardState FenError.

Definition new : outcome LichessTV :=
  match from_fen start_fen with
  | Ok b => Ret (mkLichessTV [] EmptyString b White 0 0)
  | Err _ => Panic UnwrapFromFen
  end.

Definition call_from_fen (s : string) : M (result BoardState FenError) :=
  fun w => (Ret (from_fen s),
            mkWorld (tv w) (plane_size w) (drawn w) (fen_log w ++ [s])%list).

Definition write (data : list Byte.byte) : M (result nat WriteError) :=
  do json_data <- unwrap UnwrapFromUtf8 (from_utf8 data);
  do featured_game <- unwrap UnwrapSerde (decode_feed json_data);
  do _ <-
    match featured_game with
    | FeaturedTVGameSummary_ summary =>
        let patched_fen := summary_fen summary ++ " w c - 1 1" in
        do r <- call_from_fen patched_fen;
        do b <- unwrap UnwrapFromFen r;
        do _ <- modify_tv (set_board b);
        do _ <- modify_tv (set_board_orientation (summary_orientation summary));
        modify_tv (set_players (summary_players summary))
    | FeaturedTVGameUpdate_ update =>
        let patched_fen := update_fen update ++ " c - 1 1" in
        do r <- call_from_fen patched_fen;
        do b <- unwrap UnwrapFromFen r;
        do _ <- modify_tv (set_board b);
        do _ <- modify_tv (set_last_move (update_last_move update));
        do _ <- modify_tv (set_white_clock (update_white_clock update));
        modify_tv (set_black_clock (update_black_clock update))
    end;
  do _ <- erase;
  do _ <- draw_chess_board;
  ret (Ok (length data)).

End Handler.

(* ------------------------------------------------------------------ *)
(** ** Sample inputs *)

Definition bytes (s : string) : list Byte.byte := list_byte_of_string s.

Definition nl : string := String "010"%char EmptyString.

(** Feed lines are written with ' for the JSON quote character. *)
Fixpoint q (s : string) : string :=
  match s with
  | EmptyString => EmptyString
  | String c r => String (if Ascii.eqb c "'"%char then "034"%char else c) (q r)
  end.

Definition summary_line : string :=
  q "{'t':'featured','d':{'id':'abc','orientation':'black','players':[{'color':'white','user':{'name':'A','id':'a'},'rating':2500,'seconds':600}],'fen':'rnbqkbnr/pppppppp/8/8/4P3/8/PPPP1PPP/RNBQKBNR'}}".

Definition sample_summary : FeaturedTVGameSummary :=
  mkSummary "abc" Black [mkPlayer White (mkUser "A" None "a") 2500 600]
    "rnbqkbnr/pppppppp/8/8/4P3/8/PPPP1PPP/RNBQKBNR".

Definition update_line : string :=
  q "{'t':'fen','d':{'fen':'rnbqkbnr/pppppppp/8/8/4P3/8/PPPP1PPP/RNBQKBNR','lm':'e2e4','wc':600,'bc':598}}".

Definition sample_update : FeaturedTVGameUpdate :=
  mkUpdate "rnbqkbnr/pppppppp/8/8/4P3/8/PPPP1PPP/RNBQKBNR" "e2e4" 600 598.

(** A summary whose position text the notation parser rejects. *)
Definition bad_summary_line : string :=
  q "{'t':'featured','d':{'id':'abc','orientation':'black','players':[],'fen':'zzz'}}".

(** A line of an event kind the program does not know. *)
Definition unknown_kind_line : string := q "{'t':'crowd','d':{'white':1}}".

(** A world whose handler was just built by [new] with [FenModel.from_fen],
    on an 80x24 plane. *)
(** An update whose white clock does not fit in a [u32]. *)
Definition clock_overflow_line : string :=
  q "{'t':'fen','d':{'fen':'8/8/8/8/8/8/8/8','lm':'e2e4','wc':4294967296,'bc':0}}".

Definition tv0 : LichessTV :=
  mkLichessTV [] EmptyString
    (match FenModel.from_fen start_fen with Ok b => b | Err _ => mkBoardState [] end)
    White 0 0.

Definition world0 : World := mkWorld tv0 (80%Z, 24%Z) [] [].
(* ------------------------------------------------------------------ *)
(** ** The board as [draw_chess_board] lays it out

    Square [i] of [BoardState::pieces] goes to column [width / 2 - 12 + 3 * (i mod 8)]
    and row [height / 2 - 3 + i / 8]. *)

Definition layout_cell (width height : Z) (i : nat) (sq : option Piece) : Cell :=
  mkCell (width / 2 - 12 + 3 * Z.of_nat (i mod 8))%Z
         (height / 2 - 3 + Z.of_nat (i / 8))%Z
         (square_channel i) (piece_character sq).

Fixpoint layout_from (width height : Z) (i : nat) (sqs : list (option Piece)) : list Cell :=
  match sqs with
  | [] => []
  | sq :: rest => layout_cell width height i sq :: layout_from width height (S i) rest
  end.

Definition board_layout (width height : Z) (sqs : list (option Piece)) : list Cell :=
  layout_from width height 0 sqs.

(** The value of [position] when the loop reaches square [i]. *)
Definition pos_before (width height : Z) (i : nat) : PositionOffset :=
  match i with
  | O => mkPositionOffset (height / 2 - 4) (width / 2 - 12)
  | S m => mkPositionOffset (height / 2 - 3 + Z.of_nat (m / 8))
                            (width / 2 - 12 + 3 * Z.of_nat (m mod 8))
  end.

(** Whether a cell of the layout starts on a plane of [height] rows (its
    column always does on a plane wide enough to draw the board). *)
Definition cell_visible (height : Z) (c : Cell) : bool := (cell_row c <? height)%Z.

(** Whether a string cannot continue a JSON token placed before it: it is
    empty, or it starts with whitespace. *)
Definition stops_token (t : string) : bool :=
  match t with EmptyString => true | String c _ => is_ws c end.

(* ------------------------------------------------------------------ *)
(** ** Lemmas on the monad and the drawing code *)

(** [m] either returns [v] or panics, whatever the world. *)
Definition returns_or_panics {A} (v : A) (m : M A) : Prop :=
  forall w, fst (m w) = Ret v \/ exists p, fst (m w) = Panic p.

Lemma returns_or_panics_bind {A B} (v : B) (m : M A) (k : A -> M B) :
  (forall a, returns_or_panics v (k a)) -> returns_or_panics v (bind m k).
Proof.
  intros Hk w. unfold bind.
  destruct (m w) as [[a | p] w'].
  - apply Hk.
  - right. exists p. reflexivity.
Qed.

Lemma returns_or_panics_ret {A} (v : A) : returns_or_panics v (ret v).
Proof. intros w. left. reflexivity. Qed.

Lemma div8_wrap : forall m, S m mod 8 = 0 -> m mod 8 = 7 /\ S (m / 8) = S m / 8.
Proof.
  intros m H.
  pose proof (Nat.div_mod_eq m 8). pose proof (Nat.div_mod_eq (S m) 8).
  pose proof (Nat.mod_upper_bound m 8 ltac:(lia)).
  pose proof (Nat.mod_upper_bound (S m) 8 ltac:(lia)).
  set (q1 := m / 8) in *. set (r1 := m mod 8) in *.
  set (q2 := S m / 8) in *. set (r2 := S m mod 8) in *. lia.
Qed.

Lemma div8_same : forall m, S m mod 8 <> 0 -> m / 8 = S m / 8 /\ S (m mod 8) = S m mod 8.
Proof.
  intros m H.
  pose proof (Nat.div_mod_eq m 8). pose proof (Nat.div_mod_eq (S m) 8).
  pose proof (Nat.mod_upper_bound m 8 ltac:(lia)).
  pose proof (Nat.mod_upper_bound (S m) 8 ltac:(lia)).
  set (q1 := m / 8) in *. set (r1 := m mod 8) in *.
  set (q2 := S m / 8) in *. set (r2 := S m mod 8) in *. lia.
Qed.

Lemma div8_small : forall m, m < 64 -> m / 8 <= 7 /\ m mod 8 <= 7.
Proof.
  intros m H.
  pose proof (Nat.div_mod_eq m 8). pose proof (Nat.mod_upper_bound m 8 ltac:(lia)).
  set (q1 := m / 8) in *. set (r1 := m mod 8) in *. lia.
Qed.

Lemma add_u32_ok : forall a b, (a + b <= u32_max)%Z -> add_u32 a b = Ret (a + b)%Z.
Proof. intros a b H. unfold add_u32. apply Z.leb_le in H. now rewrite H. Qed.

Lemma sub_u32_ok : forall a b, (b <= a)%Z -> sub_u32 a b = Ret (a - b)%Z.
Proof. intros a b H. unfold sub_u32. apply Z.leb_le in H. now rewrite H. Qed.

Lemma piece_character_columns : forall a, text_columns (piece_character a) = 3%Z.
Proof. intros [[[] []] |]; reflexivity. Qed.

(** [putstr_at_xy] of a text that starts on a column of the plane and fits
    in its width: it draws the cell when the row is on the plane and does
    nothing otherwise. *)
Lemma putstr_at_xy_in_width : forall bg column row text w width height,
  plane_size w = (width, height) ->
  (0 <= column)%Z -> (0 < text_columns text)%Z -> (column + text_columns text <= width)%Z ->
  (0 <= row)%Z ->
  putstr_at_xy bg column row text w =
  if (row <? height)%Z
  then (Ret tt, mkWorld (tv w) (plane_size w) (drawn w ++ [mkCell column row bg text])%list
                  (fen_log w))
  else (Ret tt, w).
Proof.
  intros bg column row text w width height Ep Hc Ht Hw Hr. unfold putstr_at_xy. rewrite Ep.
  rewrite (proj2 (Z.leb_le 0 column) Hc), (proj2 (Z.ltb_lt column width) ltac:(lia)),
    (proj2 (Z.leb_le 0 row) Hr), (proj2 (Z.leb_le _ width) Hw).
  cbn [andb]. destruct (row <? height)%Z; reflexivity.
Qed.

(** What the drawing loop leaves alone: it only appends cells. *)
Lemma draw_squares_frame : forall sqs width n position w,
  let w' := snd (draw_squares width n sqs position w) in
  tv w' = tv w /\ plane_size w' = plane_size w /\ fen_log w' = fen_log w /\
  exists cs, drawn w' = (drawn w ++ cs)%list.
Proof.
  induction sqs as [| a rest IH]; intros width n position w; cbn [draw_squares].
  - repeat split; try reflexivity. exists []. rewrite app_nil_r. reflexivity.
  - match goal with |- context [bind ?st ?k w] => set (step := st) end.
    assert (Hstep : snd (step w) = w).
    { subst step. cbv [bind lift ret]. destruct (Nat.eqb (n mod 8) 0).
      - destruct (add_u32 (row position) 1);
          [destruct (sub_u32 (width / 2) 12) |]; simpl; eauto.
      - destruct (add_u32 (column position) 3); simpl; eauto. }
    cbv zeta. unfold bind.
    destruct (step w) as [[p | pp] w1] eqn:Ew; simpl in Hstep; subst w1.
    2:{ repeat split; try reflexivity. exists []. rewrite app_nil_r. reflexivity. }
    unfold putstr_at_xy. destruct (plane_size w) as [pw ph] eqn:Ep.
    destruct (_ && _ && _ && _); [destruct (_ <=? pw)%Z |].
    + destruct (IH width (S n) p
                  (mkWorld (tv w) (plane_size w)
                     (drawn w ++ [mkCell (column p) (row p) (square_channel n)
                                    (piece_character a)]) (fen_log w)))
        as (Htv & Hps & Hfl & cs & Hd).
      simpl in Htv, Hps, Hfl, Hd. rewrite Ep in Htv, Hps, Hfl, Hd.
      repeat split; [exact Htv | exact Hps | exact Hfl |].
      exists (mkCell (column p) (row p) (square_channel n) (piece_character a) :: cs).
      rewrite Hd, <- app_assoc. reflexivity.
    + simpl. repeat split; try (reflexivity || exact Ep).
      exists []. rewrite app_nil_r. reflexivity.
    + destruct (IH width (S n) p w) as (Htv & Hps & Hfl & cs & Hd).
      repeat split; [exact Htv | rewrite Hps; exact Ep | exact Hfl | exists cs; exact Hd].
Qed.

(** The loop from square [n] on a plane wide enough for the board, with
    [position] where the loop leaves it before square [n]: the [i]-th cell it
    appends belongs to square [n + i] (rows only grow, so once a square falls
    below the plane all later ones do), and it appends nothing when
    [position] is already below the plane. *)
Lemma draw_squares_cells : forall sqs width height n position w,
  plane_size w = (width, height) -> (12 <= width / 2)%Z -> (0 <= row position)%Z ->
  ((n mod 8 <> 0)%nat -> column position = (width / 2 - 12 + 3 * Z.of_nat (n mod 8 - 1))%Z) ->
  exists cs, drawn (snd (draw_squares width n sqs position w)) = (drawn w ++ cs)%list /\
    (forall i c, nth_error cs i = Some c -> cell_bg c = square_channel (n + i)) /\
    ((height <= row position)%Z -> cs = []).
Proof.
  induction sqs as [| a rest IH]; intros width height n position w Ep Hw Hr Hc.
  - exists []. cbn. rewrite app_nil_r. split; [reflexivity |].
    split; [intros [|i] c Hn; discriminate | reflexivity].
  - pose proof (Z.div_mod width 2 ltac:(lia)) as Hw1. pose proof (Z.mod_pos_bound width 2 ltac:(lia)) as Hw2.
    pose proof (Nat.mod_upper_bound n 8 ltac:(lia)) as Hn8.
    cbn [draw_squares].
    match goal with |- context [bind ?st ?k w] => set (step := st) end.
    assert (Hstep : (exists pp, step w = (Panic pp, w)) \/
                    exists p', step w = (Ret p', w) /\ (row position <= row p')%Z /\
                      column p' = (width / 2 - 12 + 3 * Z.of_nat (n mod 8))%Z).
    { subst step. cbv [bind lift ret]. destruct (Nat.eqb_spec (n mod 8) 0) as [Hm | Hm].
      - unfold add_u32. destruct (row position + 1 <=? u32_max)%Z; [| left; eauto].
        rewrite sub_u32_ok by lia. right. eexists. split; [reflexivity |].
        cbn [row column]. rewrite Hm. split; lia.
      - unfold add_u32. destruct (column position + 3 <=? u32_max)%Z; [| left; eauto].
        right. eexists. split; [reflexivity |]. cbn [row column].
        rewrite (Hc Hm). split; lia. }
    destruct Hstep as [[pp Hs] | (p' & Hs & Hrow & Hcol)]; unfold bind at 1; rewrite Hs.
    + exists []. rewrite app_nil_r. split; [reflexivity |].
      split; [intros [|i] c Hn; discriminate | reflexivity].
    + cbv beta. unfold bind.
      rewrite (putstr_at_xy_in_width _ _ _ _ w width height Ep)
        by (rewrite ?piece_character_columns; lia).
      assert (Hc' : (S n mod 8 <> 0)%nat ->
                    column p' = (width / 2 - 12 + 3 * Z.of_nat (S n mod 8 - 1))%Z).
      { intros Hm. destruct (div8_same n Hm) as [_ Hr']. rewrite <- Hr', Hcol. f_equal. f_equal. lia. }
      destruct (Z.ltb_spec (row p') height) as [Hlt | Hge].
      * set (w1 := mkWorld (tv w) (plane_size w)
                     (drawn w ++ [mkCell (column p') (row p') (square_channel n)
                                    (piece_character a)])%list (fen_log w)).
        destruct (IH width height (S n) p' w1 Ep Hw ltac:(lia) Hc') as (cs & Hd & Hbg & _).
        exists (mkCell (column p') (row p') (square_channel n) (piece_character a) :: cs).
        split; [rewrite Hd; subst w1; cbn [drawn]; rewrite <- app_assoc; reflexivity |].
        split; [| intros Hh; lia].
        intros [|i] c Hn.
        -- injection Hn as <-. cbn [cell_bg]. rewrite Nat.add_0_r. reflexivity.
        -- cbn [nth_error] in Hn. rewrite (Hbg i c Hn). f_equal. lia.
      * destruct (IH width height (S n) p' w Ep Hw ltac:(lia) Hc') as (cs & Hd & Hbg & Hnil).
        rewrite (Hnil Hge) in Hd. exists []. split; [exact Hd |].
        split; [intros [|i] c Hn; discriminate | reflexivity].
Qed.

Lemma draw_chess_board_frame : forall w,
  let w' := snd (draw_chess_board w) in
  tv w' = tv w /\ plane_size w' = plane_size w /\ fen_log w' = fen_log w /\
  exists cs, drawn w' = (drawn w ++ cs)%list /\
    (forall i c, nth_error cs i = Some c -> cell_bg c = square_channel i).
Proof.
  intros w. unfold draw_chess_board, bind, get_world, lift.
  destruct (plane_size w) as [pw ph] eqn:Ep. unfold sub_u32.
  destruct (Z.leb_spec 4 (ph / 2)) as [Hh | Hh]; [destruct (Z.leb_spec 12 (pw / 2)) as [Hw | Hw] |].
  - cbv beta iota zeta.
    destruct (draw_squares_frame (pieces (board (tv w))) pw 0
                (mkPositionOffset (ph / 2 - 4) (pw / 2 - 12)) w) as (H1 & H2 & H3 & _).
    destruct (draw_squares_cells (pieces (board (tv w))) pw ph 0
                (mkPositionOffset (ph / 2 - 4) (pw / 2 - 12)) w Ep Hw ltac:(cbn; lia)
                ltac:(intros H; exfalso; apply H; reflexivity)) as (cs & Hd & Hbg & _).
    refine (conj H1 (conj (eq_trans H2 Ep) (conj H3 _))). exists cs. split; [exact Hd | exact Hbg].
  - simpl. repeat split; auto. exists []. rewrite app_nil_r.
    split; [reflexivity | intros [|i] c H; discriminate].
  - simpl. repeat split; auto. exists []. rewrite app_nil_r.
    split; [reflexivity | intros [|i] c H; discriminate].
Qed.

#[local] Arguments draw_chess_board : simpl never.

(** [erase] then [draw_chess_board] leave the handler and the parser log
    alone. *)
Lemma redraw_frame {A} (x : A) : forall w,
  tv (snd ((do _ <- erase; do _ <- draw_chess_board; ret x) w)) = tv w /\
  fen_log (snd ((do _ <- erase; do _ <- draw_chess_board; ret x) w)) = fen_log w.
Proof.
  intros w. unfold bind, erase.
  pose proof (draw_chess_board_frame (mkWorld (tv w) (plane_size w) [] (fen_log w)))
    as (Htv & _ & Hfl & _).
  destruct (draw_chess_board (mkWorld (tv w) (plane_size w) [] (fen_log w)))
    as [[u | p] w3]; simpl in *; split; auto.
Qed.

Lemma modify_tv_run (f : LichessTV -> LichessTV) {B} (k : unit -> M B) w :
  bind (modify_tv f) k w = k tt (mkWorld (f (tv w)) (plane_size w) (drawn w) (fen_log w)).
Proof. reflexivity. Qed.

Lemma call_from_fen_run from_fen s {B} (k : result BoardState FenError -> M B) w :
  bind (call_from_fen from_fen s) k w =
  k (from_fen s) (mkWorld (tv w) (plane_size w) (drawn w) (fen_log w ++ [s])%list).
Proof. reflexivity. Qed.

Lemma unwrap_ok {A E} site (a : A) {B} (k : A -> M B) w :
  bind (unwrap (E := E) site (Ok a)) k w = k a w.
Proof. reflexivity. Qed.

Lemma unwrap_err {A E} site (e : E) {B} (k : A -> M B) w :
  bind (unwrap site (Err e)) k w = (Panic site, w).
Proof. reflexivity. Qed.

(* ------------------------------------------------------------------ *)
(** ** Claims *)

(** C10: whenever [write] returns, it returns [Ok(data.len())]: there is
    no path that returns an [Err] to curl; every failure is a panic. *)
Theorem write_returns_len_or_panics : forall from_fen data w,
  fst (write from_fen data w) = Ret (Ok (length data)) \/
  exists p, fst (write from_fen data w) = Panic p.
Proof.
  intros from_fen data w. revert w. unfold write.
  repeat (apply returns_or_panics_bind; intros ?).
  apply returns_or_panics_ret.
Qed.

(** C3 (as the code does it): a chunk that is not valid UTF-8 makes
    [write] panic at [from_utf8(..).unwrap()], before anything is changed:
    no recoverable error is returned and the panic leaves the handler. *)
Theorem write_invalid_utf8_panics : forall from_fen data w,
  utf8_valid (map Byte.to_nat data) = false ->
  write from_fen data w = (Panic UnwrapFromUtf8, w).
Proof.
  intros from_fen data w H. unfold write, from_utf8. rewrite H.
  apply unwrap_err.
Qed.

Lemma write_invalid_utf8_panics_witness :
  utf8_valid (map Byte.to_nat [Byte.xff]) = false /\
  write FenModel.from_fen [Byte.xff] world0 = (Panic UnwrapFromUtf8, world0).
Proof.
  split; [reflexivity |].
  apply write_invalid_utf8_panics. reflexivity.
Defined.

(** C3 as stated fails: an invalid chunk is not skipped with a recoverable
    [EncodingError]; [write] panics. *)
Lemma invalid_utf8_chunk_is_not_recovered :
  write FenModel.from_fen [Byte.xc3; Byte.x28] world0 = (Panic UnwrapFromUtf8, world0).
Proof. vm_compute. reflexivity. Qed.

(** The run of [write] on a chunk that decodes to a summary. *)
Lemma write_summary_run : forall from_fen data w s sm,
  from_utf8 data = Ok s -> decode_feed s = Ok (FeaturedTVGameSummary_ sm) ->
  let patched := summary_fen sm ++ " w c - 1 1" in
  let log := app (fen_log w) [patched] in
  match from_fen patched with
  | Err _ =>
      write from_fen data w = (Panic UnwrapFromFen, mkWorld (tv w) (plane_size w) (drawn w) log)
  | Ok b =>
      write from_fen data w =
      (do _ <- erase; do _ <- draw_chess_board; ret (Ok (length data)))
        (mkWorld (set_players (summary_players sm)
                   (set_board_orientation (summary_orientation sm) (set_board b (tv w))))
                 (plane_size w) (drawn w) log)
  end.
Proof.
  intros from_fen data w s sm Hu Hd patched log.
  destruct (from_fen patched) as [b | e] eqn:Hf;
    unfold write; rewrite Hu, unwrap_ok; cbv beta; rewrite Hd, unwrap_ok; cbv beta zeta;
    unfold bind at 1; rewrite call_from_fen_run; fold patched; rewrite Hf.
  - rewrite unwrap_ok. rewrite !modify_tv_run. reflexivity.
  - rewrite unwrap_err. reflexivity.
Qed.

(** The run of [write] on a chunk that decodes to a position update. *)
Lemma write_update_run : forall from_fen data w s u,
  from_utf8 data = Ok s -> decode_feed s = Ok (FeaturedTVGameUpdate_ u) ->
  let patched := update_fen u ++ " c - 1 1" in
  let log := app (fen_log w) [patched] in
  match from_fen patched with
  | Err _ =>
      write from_fen data w = (Panic UnwrapFromFen, mkWorld (tv w) (plane_size w) (drawn w) log)
  | Ok b =>
      write from_fen data w =
      (do _ <- erase; do _ <- draw_chess_board; ret (Ok (length data)))
        (mkWorld (set_black_clock (update_black_clock u)
                   (set_white_clock (update_white_clock u)
                     (set_last_move (update_last_move u) (set_board b (tv w)))))
                 (plane_size w) (drawn w) log)
  end.
Proof.
  intros from_fen data w s u Hu Hd patched log.
  destruct (from_fen patched) as [b | e] eqn:Hf;
    unfold write; rewrite Hu, unwrap_ok; cbv beta; rewrite Hd, unwrap_ok; cbv beta zeta;
    unfold bind at 1; rewrite call_from_fen_run; fold patched; rewrite Hf.
  - rewrite unwrap_ok. rewrite !modify_tv_run. reflexivity.
  - rewrite unwrap_err. reflexivity.
Qed.

(** C1 (as the code does it): for a summary, if the patched position text
    fails to parse, [write] panics at [from_fen(..).unwrap()] with no field
    of the handler changed; if it parses, board, orientation and roster are
    all replaced in the same call and the other fields are kept. *)
Theorem write_summary_all_or_nothing : forall from_fen data w s sm,
  from_utf8 data = Ok s ->
  decode_feed s = Ok (FeaturedTVGameSummary_ sm) ->
  match from_fen (summary_fen sm ++ " w c - 1 1") with
  | Err _ =>
      fst (write from_fen data w) = Panic UnwrapFromFen /\
      tv (snd (write from_fen data w)) = tv w
  | Ok b =>
      tv (snd (write from_fen data w)) =
      mkLichessTV (summary_players sm) (last_move (tv w)) b
        (summary_orientation sm) (white_clock (tv w)) (black_clock (tv w))
  end.
Proof.
  intros from_fen data w s sm Hu Hd.
  pose proof (write_summary_run from_fen data w s sm Hu Hd) as H. cbv zeta in H.
  destruct (from_fen _) as [b | e]; rewrite H.
  - apply redraw_frame.
  - split; reflexivity.
Qed.

Lemma write_summary_all_or_nothing_witness :
  exists b, FenModel.from_fen (summary_fen sample_summary ++ " w c - 1 1") = Ok b /\
  tv (snd (write FenModel.from_fen (bytes summary_line) world0)) =
  mkLichessTV (summary_players sample_summary) (last_move tv0) b Black
    (white_clock tv0) (black_clock tv0).
Proof.
  eexists. split; [vm_compute; reflexivity |].
  pose proof (write_summary_all_or_nothing FenModel.from_fen (bytes summary_line) world0
                summary_line sample_summary ltac:(vm_compute; reflexivity)
                ltac:(vm_compute; reflexivity)) as H.
  exact H.
Defined.

(** C1 as stated fails: a summary whose position text does not parse is
    not reported as a recoverable [BadPosition]; [write] panics. *)
Lemma bad_summary_position_panics :
  fst (write FenModel.from_fen (bytes bad_summary_line) world0) = Panic UnwrapFromFen.
Proof. vm_compute. reflexivity. Qed.

(** C2 (as the code does it): a line whose "t" is a string other than
    "featured" and "fen" is rejected by the derived deserializer with an
    unknown-variant error, and [write] panics at the [unwrap] of
    [serde_json::from_str], with the world unchanged. *)
Theorem write_unknown_kind_panics : forall from_fen data w s kv rest tag,
  from_utf8 data = Ok s ->
  skip_ws s <> EmptyString ->
  parse_value (S (String.length s)) s = Some (JObj kv, rest) ->
  all_ws rest = true ->
  lookup_field "t" kv = FOne (JStr tag) ->
  lookup_field "d" kv <> FDup ->
  String.eqb tag "featured" = false ->
  String.eqb tag "fen" = false ->
  decode_feed s = Err (UnknownVariant tag) /\
  write from_fen data w = (Panic UnwrapSerde, w).
Proof.
  intros from_fen data w s kv rest tag Hu Hws Hp Hr Ht Hd Hf1 Hf2.
  assert (Hdec : decode_feed s = Err (UnknownVariant tag)).
  { unfold decode_feed, from_str.
    destruct (skip_ws s) eqn:Es; [contradiction |].
    rewrite Hp, Hr. simpl. rewrite Ht.
    destruct (lookup_field "d" kv); [| | contradiction];
      simpl; rewrite ?Hf1, ?Hf2; reflexivity. }
  split; [exact Hdec |].
  unfold write. rewrite Hu, unwrap_ok; cbv beta. rewrite Hdec. apply unwrap_err.
Qed.

Lemma write_unknown_kind_panics_witness :
  decode_feed unknown_kind_line = Err (UnknownVariant "crowd") /\
  write FenModel.from_fen (bytes unknown_kind_line) world0 = (Panic UnwrapSerde, world0).
Proof.
  apply (write_unknown_kind_panics FenModel.from_fen (bytes unknown_kind_line) world0
           unknown_kind_line [("t", JStr "crowd"); ("d", JObj [("white", JNum 1)])]
           EmptyString "crowd");
    try (vm_compute; reflexivity); vm_compute; discriminate.
Defined.

(** C2 as stated fails: a line of an unknown kind is not skipped; [write]
    panics. *)
Lemma unknown_kind_line_panics :
  fst (write FenModel.from_fen (bytes unknown_kind_line) world0) = Panic UnwrapSerde.
Proof. vm_compute. reflexivity. Qed.

(** C4 (as the code does it): [write] decodes the whole chunk as one JSON
    document (whitespace around it allowed); it neither splits the chunk
    into lines nor keeps a partial line for the next call.  Whenever that
    decode fails, [write] panics at the [unwrap] of [serde_json::from_str]
    with the world unchanged. *)
Theorem write_decodes_chunk_as_one_document : forall from_fen data w s e,
  from_utf8 data = Ok s ->
  decode_feed s = Err e ->
  write from_fen data w = (Panic UnwrapSerde, w).
Proof.
  intros from_fen data w s e Hu Hd.
  unfold write. rewrite Hu, unwrap_ok; cbv beta. rewrite Hd. apply unwrap_err.
Qed.

(** Two newline-terminated events in one chunk, a chunk with no event, and
    a chunk that ends in the middle of a line all fail to decode. *)
Lemma write_decodes_chunk_as_one_document_witness :
  decode_feed (update_line ++ nl ++ update_line ++ nl) = Err TrailingCharacters /\
  decode_feed nl = Err EofWhileParsing /\
  decode_feed (substring 0 20 update_line) = Err SyntaxError /\
  write FenModel.from_fen (bytes (update_line ++ nl ++ update_line ++ nl)) world0 =
  (Panic UnwrapSerde, world0).
Proof.
  split; [vm_compute; reflexivity |].
  split; [vm_compute; reflexivity |].
  split; [vm_compute; reflexivity |].
  apply (write_decodes_chunk_as_one_document FenModel.from_fen
           (bytes (update_line ++ nl ++ update_line ++ nl)) world0
           (update_line ++ nl ++ update_line ++ nl) TrailingCharacters);
    vm_compute; reflexivity.
Defined.

(** C4 as stated fails: a chunk carrying two newline-terminated events is
    not split into two decodes; [write] panics. *)
Lemma two_event_chunk_panics :
  fst (write FenModel.from_fen (bytes (update_line ++ nl ++ update_line ++ nl)) world0)
  = Panic UnwrapSerde.
Proof. vm_compute. reflexivity. Qed.

(** C5: the string handed to [BoardState::from_fen] is the event's position
    text followed by " w c - 1 1" for a summary and by " c - 1 1" for an
    update, and it is the only string handed to it in the call. *)
Theorem write_passes_patched_fen : forall from_fen data w s g,
  from_utf8 data = Ok s ->
  decode_feed s = Ok g ->
  fen_log (snd (write from_fen data w)) =
  app (fen_log w)
    [match g with
     | FeaturedTVGameSummary_ sm => summary_fen sm ++ " w c - 1 1"
     | FeaturedTVGameUpdate_ u => update_fen u ++ " c - 1 1"
     end].
Proof.
  intros from_fen data w s [sm | u] Hu Hd.
  - pose proof (write_summary_run from_fen data w s sm Hu Hd) as H. cbv zeta in H.
    destruct (from_fen _); rewrite H; [apply redraw_frame | reflexivity].
  - pose proof (write_update_run from_fen data w s u Hu Hd) as H. cbv zeta in H.
    destruct (from_fen _); rewrite H; [apply redraw_frame | reflexivity].
Qed.

Lemma write_passes_patched_fen_witness :
  fen_log (snd (write FenModel.from_fen (bytes update_line) world0)) =
  ["rnbqkbnr/pppppppp/8/8/4P3/8/PPPP1PPP/RNBQKBNR c - 1 1"] /\
  fen_log (snd (write FenModel.from_fen (bytes summary_line) world0)) =
  ["rnbqkbnr/pppppppp/8/8/4P3/8/PPPP1PPP/RNBQKBNR w c - 1 1"].
Proof.
  split.
  - exact (write_passes_patched_fen FenModel.from_fen (bytes update_line) world0
             update_line (FeaturedTVGameUpdate_ sample_update)
             ltac:(vm_compute; reflexivity) ltac:(vm_compute; reflexivity)).
  - exact (write_passes_patched_fen FenModel.from_fen (bytes summary_line) world0
             summary_line (FeaturedTVGameSummary_ sample_summary)
             ltac:(vm_compute; reflexivity) ltac:(vm_compute; reflexivity)).
Defined.

(** C6: an update whose patched position text parses replaces the board,
    the last move and the two clocks (copied as received); the roster and
    the orientation are kept. *)
Theorem write_update_fields : forall from_fen data w s u b,
  from_utf8 data = Ok s ->
  decode_feed s = Ok (FeaturedTVGameUpdate_ u) ->
  from_fen (update_fen u ++ " c - 1 1") = Ok b ->
  tv (snd (write from_fen data w)) =
  mkLichessTV (players (tv w)) (update_last_move u) b (board_orientation (tv w))
    (update_white_clock u) (update_black_clock u).
Proof.
  intros from_fen data w s u b Hu Hd Hf.
  pose proof (write_update_run from_fen data w s u Hu Hd) as H. cbv zeta in H.
  rewrite Hf in H. rewrite H. apply redraw_frame.
Qed.

Lemma write_update_fields_witness :
  exists b, FenModel.from_fen (update_fen sample_update ++ " c - 1 1") = Ok b /\
  tv (snd (write FenModel.from_fen (bytes update_line) world0)) =
  mkLichessTV [] "e2e4" b White 600 598.
Proof.
  eexists. split; [vm_compute; reflexivity |].
  exact (write_update_fields FenModel.from_fen (bytes update_line) world0
           update_line sample_update _
           ltac:(vm_compute; reflexivity) ltac:(vm_compute; reflexivity)
           ltac:(vm_compute; reflexivity)).
Defined.

(** The standard starting position, in the crate's order: a1 first. *)
Definition back_rank (c : Color) : list (option Piece) :=
  map (fun k => Some (mkPiece k c)) [Rook; Knight; Bishop; Queen; King; Bishop; Knight; Rook].

Definition pawn_rank (c : Color) : list (option Piece) := repeat (Some (mkPiece Pawn c)) 8.

Definition standard_start_position : list (option Piece) :=
  back_rank CWhite ++ pawn_rank CWhite ++ repeat None 32 ++ pawn_rank CBlack ++ back_rank CBlack.

Definition occupied (sq : option Piece) : bool :=
  match sq with Some _ => true | None => false end.

(** C7: [LichessTV::new] (with the notation parser reading the placement
    field and storing the squares a1 first, as the crate does) holds the 64
    squares of the standard starting position with its 32 pieces, White
    orientation, no players, no last move. *)
Theorem new_is_standard_start :
  new FenModel.from_fen =
  Ret (mkLichessTV [] EmptyString (mkBoardState standard_start_position) White 0 0) /\
  length standard_start_position = 64 /\
  length (filter occupied standard_start_position) = 32.
Proof. vm_compute. repeat split; reflexivity. Qed.

(** The selector of the source is the parity of file plus rank. *)
Lemma square_selector_parity : forall n,
  square_selector n = (n mod 8 + n / 8) mod 2.
Proof.
  intros n. unfold square_selector.
  rewrite (Nat.land_ones (n + n / 8) 1 : Nat.land (n + n / 8) 1 = (n + n / 8) mod 2).
  pose proof (Nat.div_mod_eq n 8) as Hn.
  set (r := n mod 8) in *. set (f := n / 8) in *.
  replace (n + f) with ((r + f) + (4 * f) * 2) by lia.
  apply Nat.Div0.mod_add.
Qed.

(** C8: the [n]-th cell drawn (square [n]) gets the light color when
    [(n mod 8 + n / 8) mod 2 = 0] and the dark one otherwise; the source's
    selector [(n + n / 8) & 1] is that parity. *)
Theorem square_color_parity : forall w n c,
  drawn w = [] ->
  nth_error (drawn (snd (draw_chess_board w))) n = Some c ->
  square_selector n = (n mod 8 + n / 8) mod 2 /\
  cell_bg c = (if Nat.eqb ((n mod 8 + n / 8) mod 2) 0
               then mkRgb 195 160 130 else mkRgb 242 225 195).
Proof.
  intros w n c H0 Hc.
  destruct (draw_chess_board_frame w) as (_ & _ & _ & cs & Hd & Hbg).
  rewrite Hd, H0 in Hc. simpl in Hc.
  split; [apply square_selector_parity |].
  rewrite (Hbg n c Hc). unfold square_channel. rewrite square_selector_parity.
  reflexivity.
Qed.

Lemma square_color_parity_witness :
  exists c, nth_error (drawn (snd (draw_chess_board world0))) 9 = Some c /\
  cell_bg c = mkRgb 195 160 130.
Proof.
  eexists. split; [vm_compute; reflexivity |].
  exact (proj2 (square_color_parity world0 9 _ eq_refl ltac:(vm_compute; reflexivity))).
Defined.
(** C9 (what the code does): on a plane of at least 24 columns and 8 rows,
    the cell of the first square of [BoardState::pieces] is drawn at column
    [width / 2 - 12] and row [height / 2 - 3]: [position.row] starts at
    [height / 2 - 4] and is incremented before the first cell is drawn. *)
Theorem board_anchor_cell : forall w width height p rest,
  plane_size w = (width, height) ->
  (24 <= width <= u32_max)%Z ->
  (8 <= height <= u32_max)%Z ->
  pieces (board (tv w)) = p :: rest ->
  exists c cs, drawn (snd (draw_chess_board w)) = (drawn w ++ c :: cs)%list /\
    cell_column c = (width / 2 - 12)%Z /\ cell_row c = (height / 2 - 3)%Z.
Proof.
  intros w width height p rest Hps Hw Hh Hp. unfold u32_max in *.
  pose proof (Z.div_mod height 2 ltac:(lia)). pose proof (Z.mod_pos_bound height 2 ltac:(lia)).
  pose proof (Z.div_mod width 2 ltac:(lia)). pose proof (Z.mod_pos_bound width 2 ltac:(lia)).
  assert (Hr0 : sub_u32 (height / 2) 4 = Ret (height / 2 - 4)%Z).
  { unfold sub_u32. replace (4 <=? height / 2)%Z with true; [reflexivity |].
    symmetry. apply Z.leb_le. lia. }
  assert (Hc0 : sub_u32 (width / 2) 12 = Ret (width / 2 - 12)%Z).
  { unfold sub_u32. replace (12 <=? width / 2)%Z with true; [reflexivity |].
    symmetry. apply Z.leb_le. lia. }
  assert (Hr1 : add_u32 (height / 2 - 4) 1 = Ret (height / 2 - 3)%Z).
  { unfold add_u32. replace (height / 2 - 4 + 1 <=? u32_max)%Z with true.
    - f_equal. lia.
    - symmetry. apply Z.leb_le. unfold u32_max. lia. }
  unfold draw_chess_board, bind at 1, get_world. rewrite Hps.
  unfold bind at 1, lift. rewrite Hr0.
  unfold bind at 1. rewrite Hc0.
  rewrite Hp. cbn [draw_squares].
  change (Nat.eqb (0 mod 8) 0) with true. cbv iota.
  unfold bind, lift, ret. cbn [row column]. rewrite Hr1, Hc0. cbn beta iota.
  unfold putstr_at_xy. rewrite Hps. cbn [row column].
  replace ((0 <=? width / 2 - 12)%Z && (width / 2 - 12 <? width)%Z &&
           (0 <=? height / 2 - 3)%Z && (height / 2 - 3 <? height)%Z) with true
    by (symmetry; repeat rewrite andb_true_iff; rewrite !Z.leb_le, !Z.ltb_lt; lia).
  rewrite piece_character_columns.
  replace (width / 2 - 12 + 3 <=? width)%Z with true by (symmetry; apply Z.leb_le; lia).
  match goal with |- context [draw_squares width 1 rest ?pos ?w1] =>
    destruct (draw_squares_frame rest width 1 pos w1) as (_ & _ & _ & cs & Hd) end.
  rewrite Hd. simpl. eexists _, cs. split; [rewrite <- app_assoc; reflexivity |].
  split; reflexivity.
Qed.

Lemma board_anchor_cell_witness :
  exists c cs, drawn (snd (draw_chess_board world0)) = (drawn world0 ++ c :: cs)%list /\
    cell_column c = 28%Z /\ cell_row c = 9%Z.
Proof.
  exact (board_anchor_cell world0 80 24 _ _ eq_refl
           ltac:(unfold u32_max; lia) ltac:(unfold u32_max; lia) ltac:(vm_compute; reflexivity)).
Defined.

(* ------------------------------------------------------------------ *)
(** ** Further properties of the drawing code *)


(** One turn of the loop on square [n] moves [position] from
    [pos_before n] to [pos_before (S n)], without overflow. *)
Lemma draw_loop_step : forall width height n sqs w,
  (24 <= width <= u32_max)%Z -> (8 <= height <= u32_max)%Z -> n < 64 ->
  draw_squares width n sqs (pos_before width height n) w =
  match sqs with
  | [] => (Ret tt, w)
  | a_piece :: rest =>
      bind (putstr_at_xy (square_channel n) (column (pos_before width height (S n)))
              (row (pos_before width height (S n))) (piece_character a_piece))
           (fun _ => draw_squares width (S n) rest (pos_before width height (S n))) w
  end.
Proof.
  intros width height n sqs w Hw Hh Hn. unfold u32_max in *.
  pose proof (Z.div_mod height 2 ltac:(lia)). pose proof (Z.mod_pos_bound height 2 ltac:(lia)).
  pose proof (Z.div_mod width 2 ltac:(lia)). pose proof (Z.mod_pos_bound width 2 ltac:(lia)).
  destruct sqs as [| a rest]; [reflexivity |].
  cbn [draw_squares]. unfold bind at 1.
  match goal with |- match ?st w with _ => _ end = _ =>
    assert (Hst : st w = (Ret (pos_before width height (S n)), w)) end.
  { destruct (Nat.eqb_spec (n mod 8) 0) as [Hm | Hm].
    - destruct n as [| m]; cbn [pos_before row column].
      + rewrite add_u32_ok by (unfold u32_max; lia).
        rewrite sub_u32_ok by lia.
        cbv [bind lift ret]. change (0 / 8) with 0. change (0 mod 8) with 0. do 3 f_equal; lia.
      + destruct (div8_wrap m Hm) as [Hr Hq]. destruct (div8_small (S m) Hn).
        rewrite add_u32_ok by (unfold u32_max; lia).
        rewrite sub_u32_ok by lia.
        rewrite Hm, <- Hq. cbv [bind lift ret]. do 3 f_equal; lia.
    - destruct n as [| m]; [cbn in Hm; congruence |].
      destruct (div8_same m Hm) as [Hq Hr]. destruct (div8_small (S m) Hn).
      cbn [pos_before row column].
      rewrite add_u32_ok by (unfold u32_max; lia).
      rewrite <- Hq, <- Hr. cbv [bind lift ret]. do 3 f_equal; lia. }
  rewrite Hst. reflexivity.
Qed.

(** The loop from square [n] on: it draws the cells of [layout_from n sqs]
    that start on the plane, and returns normally. *)
Lemma draw_squares_layout : forall sqs n w width height,
  plane_size w = (width, height) ->
  (24 <= width <= u32_max)%Z -> (8 <= height <= u32_max)%Z ->
  n + length sqs <= 64 ->
  draw_squares width n sqs (pos_before width height n) w =
  (Ret tt, mkWorld (tv w) (plane_size w)
             (drawn w ++ filter (cell_visible height) (layout_from width height n sqs))%list
             (fen_log w)).
Proof.
  induction sqs as [| a rest IH]; intros n w width height Ep Hw Hh Hlen.
  - cbn. rewrite app_nil_r. destruct w; reflexivity.
  - cbn [length] in Hlen.
    rewrite draw_loop_step by (auto; lia).
    unfold bind. cbn [pos_before row column].
    pose proof (div8_small n ltac:(lia)) as [Hq Hr].
    pose proof (Z.div_mod height 2 ltac:(lia)). pose proof (Z.mod_pos_bound height 2 ltac:(lia)).
    pose proof (Z.div_mod width 2 ltac:(lia)). pose proof (Z.mod_pos_bound width 2 ltac:(lia)).
    rewrite (putstr_at_xy_in_width _ _ _ _ w width height Ep)
      by (rewrite ?piece_character_columns; lia).
    cbn [layout_from filter]. unfold cell_visible at 1, layout_cell at 1. cbn [cell_row].
    destruct (height / 2 - 3 + Z.of_nat (n / 8) <? height)%Z.
    + set (w1 := mkWorld (tv w) (plane_size w)
                   (drawn w ++ [mkCell (width / 2 - 12 + 3 * Z.of_nat (n mod 8))
                                  (height / 2 - 3 + Z.of_nat (n / 8))
                                  (square_channel n) (piece_character a)])%list (fen_log w)).
      refine (eq_trans (IH (S n) w1 width height Ep Hw Hh ltac:(lia)) _).
      subst w1. cbn [tv plane_size drawn fen_log].
      rewrite <- app_assoc. reflexivity.
    + exact (IH (S n) w width height Ep Hw Hh ltac:(lia)).
Qed.

Lemma draw_chess_board_start : forall w width height,
  plane_size w = (width, height) -> (12 <= width / 2)%Z -> (4 <= height / 2)%Z ->
  draw_chess_board w = draw_squares width 0 (pieces (board (tv w))) (pos_before width height 0) w.
Proof.
  intros w width height Ep Hw Hh. unfold draw_chess_board. cbv [bind get_world lift].
  rewrite Ep. rewrite !sub_u32_ok by lia. reflexivity.
Qed.

(** With at least 9 rows every square of the board starts on the plane. *)
Lemma layout_all_visible : forall width height sqs n,
  (9 <= height)%Z -> n + length sqs <= 64 ->
  filter (cell_visible height) (layout_from width height n sqs) = layout_from width height n sqs.
Proof.
  intros width height sqs. induction sqs as [| a rest IH]; intros n Hh Hlen; [reflexivity |].
  cbn [length] in Hlen. cbn [layout_from filter].
  pose proof (div8_small n ltac:(lia)) as [Hq _].
  pose proof (Z.div_mod height 2 ltac:(lia)). pose proof (Z.mod_pos_bound height 2 ltac:(lia)).
  unfold cell_visible at 1, layout_cell at 1. cbn [cell_row].
  replace (height / 2 - 3 + Z.of_nat (n / 8) <? height)%Z with true
    by (symmetry; apply Z.ltb_lt; lia).
  rewrite (IH (S n) Hh ltac:(lia)). reflexivity.
Qed.

(** With 8 rows the squares from 56 on (the last eight) start below it. *)
Lemma layout_visible_8 : forall width sqs n,
  n + length sqs <= 64 ->
  filter (cell_visible 8) (layout_from width 8 n sqs) = firstn (56 - n) (layout_from width 8 n sqs).
Proof.
  intros width sqs. induction sqs as [| a rest IH]; intros n Hlen.
  - destruct (56 - n); reflexivity.
  - cbn [length] in Hlen. cbn [layout_from filter].
    unfold cell_visible at 1, layout_cell at 1. cbn [cell_row].
    rewrite (IH (S n) ltac:(lia)).
    pose proof (Nat.div_mod_eq n 8). pose proof (Nat.mod_upper_bound n 8 ltac:(lia)).
    change (8 / 2)%Z with 4%Z.
    destruct (Nat.ltb_spec n 56) as [Hn | Hn].
    + replace (4 - 3 + Z.of_nat (n / 8) <? 8)%Z with true
        by (symmetry; apply Z.ltb_lt; set (q := n / 8) in *; set (r := n mod 8) in *; lia).
      replace (56 - n) with (S (56 - S n)) by lia. reflexivity.
    + replace (4 - 3 + Z.of_nat (n / 8) <? 8)%Z with false
        by (symmetry; apply Z.ltb_ge; set (q := n / 8) in *; set (r := n mod 8) in *; lia).
      replace (56 - n) with 0 by lia. replace (56 - S n) with 0 by lia. reflexivity.
Qed.

Lemma draw_chess_board_layout : forall w width height,
  plane_size w = (width, height) ->
  (24 <= width <= u32_max)%Z -> (8 <= height <= u32_max)%Z ->
  length (pieces (board (tv w))) <= 64 ->
  draw_chess_board w =
  (Ret tt, mkWorld (tv w) (plane_size w)
             (drawn w ++ filter (cell_visible height)
                            (board_layout width height (pieces (board (tv w)))))%list
             (fen_log w)).
Proof.
  intros w width height Ep Hw Hh Hlen.
  pose proof (Z.div_mod height 2 ltac:(lia)). pose proof (Z.mod_pos_bound height 2 ltac:(lia)).
  pose proof (Z.div_mod width 2 ltac:(lia)). pose proof (Z.mod_pos_bound width 2 ltac:(lia)).
  rewrite (draw_chess_board_start w width height Ep) by lia.
  exact (draw_squares_layout (pieces (board (tv w))) 0 w width height Ep Hw Hh ltac:(lia)).
Qed.

Lemma draw_chess_board_run : forall w width height,
  plane_size w = (width, height) ->
  (24 <= width <= u32_max)%Z -> (9 <= height <= u32_max)%Z ->
  length (pieces (board (tv w))) <= 64 ->
  draw_chess_board w =
  (Ret tt, mkWorld (tv w) (plane_size w)
             (drawn w ++ board_layout width height (pieces (board (tv w))))%list (fen_log w)).
Proof.
  intros w width height Ep Hw Hh Hlen.
  rewrite (draw_chess_board_layout w width height Ep Hw ltac:(lia) Hlen).
  unfold board_layout. rewrite layout_all_visible by lia. reflexivity.
Qed.

Lemma draw_chess_board_underflow : forall w width height,
  plane_size w = (width, height) -> (width < 24 \/ height < 8)%Z ->
  fst (draw_chess_board w) = Panic ArithOverflow.
Proof.
  intros w width height Ep H.
  unfold draw_chess_board. cbv [bind get_world lift]. rewrite Ep. unfold sub_u32.
  destruct (Z.leb_spec 4 (height / 2)); [| reflexivity].
  destruct (Z.leb_spec 12 (width / 2)); [| reflexivity].
  pose proof (Z.div_mod height 2 ltac:(lia)). pose proof (Z.mod_pos_bound height 2 ltac:(lia)).
  pose proof (Z.div_mod width 2 ltac:(lia)). pose proof (Z.mod_pos_bound width 2 ltac:(lia)).
  lia.
Qed.

(** When [draw_chess_board] returns, it has drawn the visible part of
    [board_layout]. *)
Lemma draw_chess_board_returns : forall w width height,
  plane_size w = (width, height) -> (width <= u32_max)%Z -> (height <= u32_max)%Z ->
  length (pieces (board (tv w))) <= 64 ->
  fst (draw_chess_board w) = Ret tt ->
  draw_chess_board w =
  (Ret tt, mkWorld (tv w) (plane_size w)
             (drawn w ++ filter (cell_visible height)
                            (board_layout width height (pieces (board (tv w)))))%list
             (fen_log w)).
Proof.
  intros w width height Ep Hw Hh Hlen Hret.
  destruct (Z.ltb_spec width 24) as [Hw24 | Hw24];
    [rewrite (draw_chess_board_underflow w width height Ep) in Hret by lia; discriminate |].
  destruct (Z.ltb_spec height 8) as [Hh8 | Hh8];
    [rewrite (draw_chess_board_underflow w width height Ep) in Hret by lia; discriminate |].
  apply draw_chess_board_layout; auto; lia.
Qed.

(** What [erase] then [draw_chess_board] leave on the plane when they return. *)
Lemma redraw_returns {A} (x y : A) : forall w width height,
  plane_size w = (width, height) -> (width <= u32_max)%Z -> (height <= u32_max)%Z ->
  length (pieces (board (tv w))) <= 64 ->
  fst ((do _ <- erase; do _ <- draw_chess_board; ret x) w) = Ret y ->
  drawn (snd ((do _ <- erase; do _ <- draw_chess_board; ret x) w)) =
  filter (cell_visible height) (board_layout width height (pieces (board (tv w)))).
Proof.
  intros w width height Ep Hw Hh Hlen Hret.
  set (w1 := mkWorld (tv w) (plane_size w) [] (fen_log w)) in *.
  change ((do _ <- erase; do _ <- draw_chess_board; ret x) w)
    with ((do _ <- draw_chess_board; ret x) w1) in *.
  assert (Ep1 : plane_size w1 = (width, height)) by exact Ep.
  pose proof (draw_chess_board_returns w1 width height Ep1 Hw Hh Hlen) as Hd.
  unfold bind in *. destruct (draw_chess_board w1) as [[u | p] w3] eqn:Ed; [| discriminate].
  destruct u. specialize (Hd eq_refl). injection Hd as Hw3. rewrite Hw3. reflexivity.
Qed.

Lemma concat_ranks_length : forall ranks : list (list (option Piece)),
  forallb (fun r => Nat.eqb (length r) 8) ranks = true ->
  length (concat ranks) = 8 * length ranks.
Proof.
  induction ranks as [| r rs IH]; intros H; [reflexivity |].
  cbn [forallb] in H. apply andb_prop in H as [H1 H2]. apply Nat.eqb_eq in H1.
  cbn [concat length]. rewrite length_app, H1, (IH H2). lia.
Qed.

(** The stand-in parser only yields boards of 64 squares. *)
Lemma FenModel_from_fen_length : forall s b,
  FenModel.from_fen s = Ok b -> length (pieces b) = 64.
Proof.
  intros s b H. unfold FenModel.from_fen in H.
  destruct (FenModel.placement s) as [ranks |]; [| discriminate].
  destruct (Nat.eqb (length ranks) 8) eqn:E8; [| discriminate].
  destruct (forallb (fun r => Nat.eqb (length r) 8) ranks) eqn:Ef; [| discriminate].
  injection H as <-. cbn [pieces].
  assert (Efr : forallb (fun r => Nat.eqb (length r) 8) (rev ranks) = true).
  { apply forallb_forall. intros r Hr. apply in_rev in Hr.
    exact (proj1 (forallb_forall _ ranks) Ef r Hr). }
  rewrite (concat_ranks_length (rev ranks) Efr), length_rev.
  apply Nat.eqb_eq in E8. rewrite E8. reflexivity.
Qed.

(** The loop reads nothing of the world but the plane size and the cells
    already drawn. *)
Lemma draw_squares_congr : forall sqs width n position w1 w2,
  plane_size w1 = plane_size w2 -> drawn w1 = drawn w2 ->
  fst (draw_squares width n sqs position w1) = fst (draw_squares width n sqs position w2) /\
  plane_size (snd (draw_squares width n sqs position w1)) =
    plane_size (snd (draw_squares width n sqs position w2)) /\
  drawn (snd (draw_squares width n sqs position w1)) =
    drawn (snd (draw_squares width n sqs position w2)).
Proof.
  induction sqs as [| a rest IH]; intros width n position w1 w2 Hp Hd; cbn [draw_squares].
  - cbn. auto.
  - cbv [bind lift ret].
    destruct (Nat.eqb (n mod 8) 0);
      [destruct (add_u32 (row position) 1); [destruct (sub_u32 (width / 2) 12) |] |
       destruct (add_u32 (column position) 3)]; cbn [fst snd]; auto;
      unfold putstr_at_xy; rewrite Hp; destruct (plane_size w2) as [pw ph] eqn:Ep2;
      repeat match goal with |- context [if ?c then _ else _] => destruct c end;
      cbn [fst snd];
      first [ apply IH; cbn [plane_size drawn]; congruence | repeat split; congruence ].
Qed.

(** Extra X1: on a plane of at least 24 columns and 9 rows, [draw_chess_board]
    returns normally and appends exactly [board_layout] of the board's squares
    (at most 64) to what the plane shows: square [i] at column
    [width / 2 - 12 + 3 * (i mod 8)], row [height / 2 - 3 + i / 8], with
    [square_channel i] and [piece_character]; the handler state is untouched. *)
Theorem draw_chess_board_draws_layout : forall w width height,
  plane_size w = (width, height) ->
  (24 <= width <= u32_max)%Z -> (9 <= height <= u32_max)%Z ->
  length (pieces (board (tv w))) <= 64 ->
  draw_chess_board w =
  (Ret tt, mkWorld (tv w) (plane_size w)
             (drawn w ++ board_layout width height (pieces (board (tv w))))%list (fen_log w)).
Proof. exact draw_chess_board_run. Qed.

Lemma draw_chess_board_draws_layout_witness :
  draw_chess_board world0 =
  (Ret tt, mkWorld (tv world0) (plane_size world0)
             (drawn world0 ++ board_layout 80 24 (pieces (board (tv world0))))%list
             (fen_log world0)).
Proof.
  apply (draw_chess_board_draws_layout world0 80 24);
    [reflexivity | unfold u32_max; lia | unfold u32_max; lia | vm_compute; lia].
Defined.

(** Extra X2: for a full 64-square board, drawing panics on u32 underflow
    when the plane is narrower than 24 columns or shorter than 8 rows, and
    returns normally otherwise.  On a plane of exactly 8 rows the squares
    from 56 on start below the plane: [putstr_at_xy] writes nothing for them
    and the unwrap passes, so only the first 56 cells are drawn. *)
Theorem draw_chess_board_size_outcome : forall w width height,
  plane_size w = (width, height) ->
  (width <= u32_max)%Z -> (height <= u32_max)%Z ->
  length (pieces (board (tv w))) = 64 ->
  fst (draw_chess_board w) =
    (if (width <? 24)%Z || (height <? 8)%Z then Panic ArithOverflow else Ret tt) /\
  (height = 8%Z -> (24 <= width)%Z ->
   drawn (snd (draw_chess_board w)) =
   (drawn w ++ firstn 56 (board_layout width 8 (pieces (board (tv w)))))%list).
Proof.
  intros w width height Ep Hw Hh Hlen. split.
  - destruct (Z.ltb_spec width 24) as [Hw24 | Hw24];
      [cbn [orb]; apply (draw_chess_board_underflow w width height Ep); lia |].
    destruct (Z.ltb_spec height 8) as [Hh8 | Hh8];
      [cbn [orb]; apply (draw_chess_board_underflow w width height Ep); lia |].
    cbn [orb]. rewrite (draw_chess_board_layout w width height Ep) by lia. reflexivity.
  - intros Hh8 Hw24. subst height.
    rewrite (draw_chess_board_layout w width 8 Ep) by (unfold u32_max in *; lia).
    cbn [snd drawn]. unfold board_layout. rewrite layout_visible_8 by lia. reflexivity.
Qed.

Lemma draw_chess_board_size_outcome_witness :
  fst (draw_chess_board (mkWorld tv0 (80%Z, 8%Z) [] [])) = Ret tt /\
  length (drawn (snd (draw_chess_board (mkWorld tv0 (80%Z, 8%Z) [] [])))) = 56.
Proof.
  destruct (draw_chess_board_size_outcome (mkWorld tv0 (80%Z, 8%Z) [] []) 80 8 eq_refl
              ltac:(unfold u32_max; lia) ltac:(unfold u32_max; lia)
              ltac:(vm_compute; reflexivity)) as [H1 H2].
  split; [exact H1 |].
  rewrite (H2 eq_refl ltac:(lia)). vm_compute. reflexivity.
Defined.

(** Extra X3: whenever [write] returns normally, the board plane shows
    exactly the cells of the layout of the handler's new board that start on
    the plane (all of them from 9 rows on, the first 56 on 8 rows), and
    nothing else: the cells of earlier frames are gone ([erase] runs before
    drawing).  This holds on any plane within [u32] when the position parser
    yields boards of at most 64 squares. *)
Theorem write_shows_only_new_board : forall from_fen data w width height r,
  plane_size w = (width, height) -> (width <= u32_max)%Z -> (height <= u32_max)%Z ->
  (forall s b, from_fen s = Ok b -> length (pieces b) <= 64) ->
  fst (write from_fen data w) = Ret r ->
  drawn (snd (write from_fen data w)) =
  filter (cell_visible height)
    (board_layout width height (pieces (board (tv (snd (write from_fen data w)))))).
Proof.
  intros from_fen data w width height r Ep Hw Hh Hfen Hr.
  destruct (from_utf8 data) as [s | e] eqn:Hu.
  2:{ unfold write in Hr. rewrite Hu, unwrap_err in Hr. discriminate. }
  destruct (decode_feed s) as [[sm | u] | e] eqn:Hd.
  3:{ unfold write in Hr. rewrite Hu, unwrap_ok in Hr. cbv beta in Hr.
      rewrite Hd, unwrap_err in Hr. discriminate. }
  - pose proof (write_summary_run from_fen data w s sm Hu Hd) as Hrun. cbv zeta in Hrun.
    destruct (from_fen (summary_fen sm ++ " w c - 1 1")) as [b | e] eqn:Hf;
      rewrite Hrun in *; [| discriminate].
    match type of Hr with fst (_ ?w') = _ =>
      pose proof (redraw_frame (Ok (E := WriteError) (length data)) w') as [Htv _] end.
    rewrite Htv.
    eapply redraw_returns; [exact Ep | exact Hw | exact Hh | | exact Hr].
    exact (Hfen _ _ Hf).
  - pose proof (write_update_run from_fen data w s u Hu Hd) as Hrun. cbv zeta in Hrun.
    destruct (from_fen (update_fen u ++ " c - 1 1")) as [b | e] eqn:Hf;
      rewrite Hrun in *; [| discriminate].
    match type of Hr with fst (_ ?w') = _ =>
      pose proof (redraw_frame (Ok (E := WriteError) (length data)) w') as [Htv _] end.
    rewrite Htv.
    eapply redraw_returns; [exact Ep | exact Hw | exact Hh | | exact Hr].
    exact (Hfen _ _ Hf).
Qed.

Lemma write_shows_only_new_board_witness :
  drawn (snd (write FenModel.from_fen (bytes update_line) (mkWorld tv0 (80%Z, 8%Z) [] []))) =
  filter (cell_visible 8)
    (board_layout 80 8
      (pieces (board (tv (snd (write FenModel.from_fen (bytes update_line)
                                 (mkWorld tv0 (80%Z, 8%Z) [] []))))))).
Proof.
  apply (write_shows_only_new_board FenModel.from_fen (bytes update_line)
           (mkWorld tv0 (80%Z, 8%Z) [] []) 80 8
           (Ok (length (bytes update_line))));
    [reflexivity | unfold u32_max; lia | unfold u32_max; lia
    | intros s b H; rewrite (FenModel_from_fen_length s b H); lia
    | vm_compute; reflexivity].
Defined.

(** Extra X4: drawing reads only the board's squares, the plane size and
    what the plane already shows: the orientation, the players, the clocks
    and the last move never change the picture, so a game watched from
    Black's side is drawn exactly as one watched from White's. *)
Theorem draw_ignores_orientation_and_clocks : forall w1 w2,
  plane_size w1 = plane_size w2 -> drawn w1 = drawn w2 ->
  pieces (board (tv w1)) = pieces (board (tv w2)) ->
  fst (draw_chess_board w1) = fst (draw_chess_board w2) /\
  drawn (snd (draw_chess_board w1)) = drawn (snd (draw_chess_board w2)).
Proof.
  intros w1 w2 Hp Hd Hb. unfold draw_chess_board. cbv [bind get_world lift].
  rewrite Hp, Hb. destruct (plane_size w2) as [pw ph] eqn:Ep2.
  destruct (sub_u32 (ph / 2) 4) as [r0 | p]; [destruct (sub_u32 (pw / 2) 12) as [c0 | p] |];
    cbn [fst snd]; auto.
  destruct (draw_squares_congr (pieces (board (tv w2))) pw 0 (mkPositionOffset r0 c0) w1 w2
                (eq_trans Hp (eq_sym Ep2)) Hd)
    as (H1 & _ & H3).
  auto.
Qed.

Lemma draw_ignores_orientation_and_clocks_witness :
  let w1 := mkWorld tv0 (80%Z, 24%Z) [] [] in
  let w2 := mkWorld (mkLichessTV (summary_players sample_summary) "e2e4" (board tv0) Black 600 598)
              (80%Z, 24%Z) [] [] in
  fst (draw_chess_board w1) = fst (draw_chess_board w2) /\
  drawn (snd (draw_chess_board w1)) = drawn (snd (draw_chess_board w2)).
Proof.
  cbv zeta. apply draw_ignores_orientation_and_clocks; reflexivity.
Defined.

(* ------------------------------------------------------------------ *)
(** ** Further properties of the derived deserializers *)

(** Case analysis on every [match] of a hypothesis, dropping the
    branches that cannot produce [Ok]. *)
Ltac split_matches H :=
  repeat match type of H with
         | context [match ?x with _ => _ end] =>
             let E := fresh "E" in destruct x eqn:E; try discriminate H
         end.

Lemma de_string_ok : forall v s, de_string v = Ok s -> v = JStr s.
Proof. intros v s H. destruct v; try discriminate. injection H as <-. reflexivity. Qed.

Lemma de_u32_ok : forall v z, de_u32 v = Ok z -> v = JNum z /\ (0 <= z <= u32_max)%Z.
Proof.
  intros v z H. destruct v as [| | z' | | | |]; try discriminate. cbn in H.
  destruct ((0 <=? z')%Z && (z' <=? u32_max)%Z) eqn:E; [| discriminate].
  injection H as <-. apply andb_prop in E as [E1 E2].
  apply Z.leb_le in E1, E2. auto.
Qed.

Lemma de_u32_in_range : forall z, (0 <= z <= u32_max)%Z -> de_u32 (JNum z) = Ok z.
Proof.
  intros z [H1 H2]. cbn. apply Z.leb_le in H1, H2. rewrite H1, H2. reflexivity.
Qed.

(** What a map decoded as a position update holds. *)
Lemma de_Update_obj_sound : forall kv u,
  de_Update (JObj kv) = Ok u ->
  lookup_field "fen" kv = FOne (JStr (update_fen u)) /\
  lookup_field "lm" kv = FOne (JStr (update_last_move u)) /\
  lookup_field "wc" kv = FOne (JNum (update_white_clock u)) /\
  lookup_field "bc" kv = FOne (JNum (update_black_clock u)) /\
  (0 <= update_white_clock u <= u32_max)%Z /\ (0 <= update_black_clock u <= u32_max)%Z.
Proof.
  intros kv u H. unfold de_Update, struct_fields in H. cbn [fold_right] in H.
  destruct (lookup_field "bc" kv) eqn:Eb; destruct (lookup_field "wc" kv) eqn:Ew;
    destruct (lookup_field "lm" kv) eqn:El; destruct (lookup_field "fen" kv) eqn:Ef;
    cbn in H; split_matches H; try discriminate H.
  injection H as <-. cbn [update_fen update_last_move update_white_clock update_black_clock].
  repeat match goal with
         | E : de_string _ = Ok _ |- _ => apply de_string_ok in E
         | E : de_u32 _ = Ok _ |- _ => apply de_u32_ok in E as [? ?]
         end.
  subst. repeat split; auto; lia.
Qed.

(** A map with the four fields, once each and well typed, decodes as an
    update, whatever other keys it has and in any order. *)
Lemma de_Update_obj_complete : forall kv u,
  lookup_field "fen" kv = FOne (JStr (update_fen u)) ->
  lookup_field "lm" kv = FOne (JStr (update_last_move u)) ->
  lookup_field "wc" kv = FOne (JNum (update_white_clock u)) ->
  lookup_field "bc" kv = FOne (JNum (update_black_clock u)) ->
  (0 <= update_white_clock u <= u32_max)%Z -> (0 <= update_black_clock u <= u32_max)%Z ->
  de_Update (JObj kv) = Ok u.
Proof.
  intros kv [f l wc bc] Hf Hl Hw Hb Rw Rb. cbn [update_fen update_last_move
    update_white_clock update_black_clock] in *.
  unfold de_Update, struct_fields. cbn [fold_right].
  rewrite Hf, Hl, Hw, Hb. cbn [required de_string].
  rewrite (de_u32_in_range wc Rw), (de_u32_in_range bc Rb). reflexivity.
Qed.

(** Extra X5: a JSON map decodes as a [FeaturedTVGameUpdate] exactly when
    "fen" and "lm" occur once each with a string, "wc" and "bc" once each
    with an integer in [0, u32::MAX]; every other key is ignored and the
    order of the keys does not matter. *)
Theorem de_Update_obj_iff : forall kv u,
  de_Update (JObj kv) = Ok u <->
  lookup_field "fen" kv = FOne (JStr (update_fen u)) /\
  lookup_field "lm" kv = FOne (JStr (update_last_move u)) /\
  lookup_field "wc" kv = FOne (JNum (update_white_clock u)) /\
  lookup_field "bc" kv = FOne (JNum (update_black_clock u)) /\
  (0 <= update_white_clock u <= u32_max)%Z /\ (0 <= update_black_clock u <= u32_max)%Z.
Proof.
  intros kv u. split.
  - apply de_Update_obj_sound.
  - intros (Hf & Hl & Hw & Hb & Rw & Rb). apply de_Update_obj_complete; assumption.
Qed.

Lemma de_variant_update : forall t d u,
  de_variant t d = Ok (FeaturedTVGameUpdate_ u) <-> t = JStr "fen" /\ de_Update d = Ok u.
Proof.
  intros t d u. split.
  - intros H. destruct t; try discriminate H. cbn [de_variant] in H.
    destruct (String.eqb s "featured") eqn:E1.
    + split_matches H; discriminate H.
    + destruct (String.eqb s "fen") eqn:E2; [| discriminate H].
      split_matches H. injection H as <-. apply String.eqb_eq in E2. subst. auto.
  - intros [-> H]. cbn. rewrite H. reflexivity.
Qed.

Lemma de_variant_summary : forall t d sm,
  de_variant t d = Ok (FeaturedTVGameSummary_ sm) <-> t = JStr "featured" /\ de_Summary d = Ok sm.
Proof.
  intros t d sm. split.
  - intros H. destruct t; try discriminate H. cbn [de_variant] in H.
    destruct (String.eqb s "featured") eqn:E1.
    + split_matches H. injection H as <-. apply String.eqb_eq in E1. subst. auto.
    + destruct (String.eqb s "fen") eqn:E2; [| discriminate H].
      split_matches H; discriminate H.
  - intros [-> H]. cbn. rewrite H. reflexivity.
Qed.

(** The envelope map decodes to an update exactly when "t" is "fen" and
    "d" holds an update. *)
Lemma de_Feed_obj_update : forall kv u,
  de_FeaturedTVGameFeed (JObj kv) = Ok (FeaturedTVGameUpdate_ u) <->
  lookup_field "t" kv = FOne (JStr "fen") /\
  exists d, lookup_field "d" kv = FOne d /\ de_Update d = Ok u.
Proof.
  intros kv u. unfold de_FeaturedTVGameFeed. split.
  - intros H.
    destruct (lookup_field "t" kv) as [| t |] eqn:Et; destruct (lookup_field "d" kv) as [| d |] eqn:Ed;
      try discriminate H.
    + destruct (is_known_tag t) eqn:Ek; [discriminate H |].
      apply de_variant_update in H as [-> _]. discriminate Ek.
    + apply de_variant_update in H as [-> Hd]. eauto.
  - intros [Et (d & Ed & Hd)]. rewrite Et, Ed. apply de_variant_update. auto.
Qed.

Lemma de_Feed_obj_summary : forall kv sm,
  de_FeaturedTVGameFeed (JObj kv) = Ok (FeaturedTVGameSummary_ sm) <->
  lookup_field "t" kv = FOne (JStr "featured") /\
  exists d, lookup_field "d" kv = FOne d /\ de_Summary d = Ok sm.
Proof.
  intros kv sm. unfold de_FeaturedTVGameFeed. split.
  - intros H.
    destruct (lookup_field "t" kv) as [| t |] eqn:Et; destruct (lookup_field "d" kv) as [| d |] eqn:Ed;
      try discriminate H.
    + destruct (is_known_tag t) eqn:Ek; [discriminate H |].
      apply de_variant_summary in H as [-> _]. discriminate Ek.
    + apply de_variant_summary in H as [-> Hd]. eauto.
  - intros [Et (d & Ed & Hd)]. rewrite Et, Ed. apply de_variant_summary. auto.
Qed.

(** Extra X6: an envelope map decodes to a summary exactly when its key "t"
    occurs once with the string "featured" and its key "d" occurs once with
    a value that decodes as a summary; it decodes to an update exactly when
    "t" is "fen" and "d" decodes as an update.  Other keys of the envelope
    are ignored. *)
Theorem de_Feed_obj_iff : forall kv,
  (forall sm, de_FeaturedTVGameFeed (JObj kv) = Ok (FeaturedTVGameSummary_ sm) <->
     lookup_field "t" kv = FOne (JStr "featured") /\
     exists d, lookup_field "d" kv = FOne d /\ de_Summary d = Ok sm) /\
  (forall u, de_FeaturedTVGameFeed (JObj kv) = Ok (FeaturedTVGameUpdate_ u) <->
     lookup_field "t" kv = FOne (JStr "fen") /\
     exists d, lookup_field "d" kv = FOne d /\ de_Update d = Ok u).
Proof.
  intros kv. split; [apply de_Feed_obj_summary | apply de_Feed_obj_update].
Qed.

(** A chunk that is text but does not decode makes [write] panic at the
    serde unwrap, with nothing changed. *)
Lemma write_decode_error : forall from_fen data w s e,
  from_utf8 data = Ok s -> decode_feed s = Err e ->
  write from_fen data w = (Panic UnwrapSerde, w).
Proof.
  intros from_fen data w s e Hu Hd. unfold write. rewrite Hu, unwrap_ok. cbv beta.
  rewrite Hd. apply unwrap_err.
Qed.

(** Extra X7: a "fen" event whose payload map gives "wc" or "bc" an integer
    outside [0, u32::MAX] is not decoded: [write] panics at the serde
    unwrap and changes nothing, whatever the other keys hold. *)
Theorem write_clock_out_of_range_panics : forall from_fen data w s kv rest dkv k z,
  from_utf8 data = Ok s -> skip_ws s <> EmptyString ->
  parse_value (S (String.length s)) s = Some (JObj kv, rest) -> all_ws rest = true ->
  lookup_field "t" kv = FOne (JStr "fen") -> lookup_field "d" kv = FOne (JObj dkv) ->
  (k = "wc" \/ k = "bc") -> lookup_field k dkv = FOne (JNum z) ->
  (z < 0 \/ u32_max < z)%Z ->
  write from_fen data w = (Panic UnwrapSerde, w).
Proof.
  intros from_fen data w s kv rest dkv k z Hu Hws Hp Hrest Ht Hd Hk Hz Hr.
  destruct (decode_feed s) as [[sm | u] | e] eqn:Hdec.
  - exfalso. unfold decode_feed, from_str in Hdec.
    destruct (skip_ws s); [congruence |]. rewrite Hp, Hrest in Hdec.
    apply de_Feed_obj_summary in Hdec as [Ht' _]. congruence.
  - exfalso. unfold decode_feed, from_str in Hdec.
    destruct (skip_ws s); [congruence |]. rewrite Hp, Hrest in Hdec.
    apply de_Feed_obj_update in Hdec as [_ (d & Hd' & Hu')].
    rewrite Hd in Hd'. injection Hd' as <-.
    apply de_Update_obj_sound in Hu' as (_ & _ & Hw & Hb & Rw & Rb).
    destruct Hk as [-> | ->].
    + rewrite Hz in Hw. injection Hw as ->. lia.
    + rewrite Hz in Hb. injection Hb as ->. lia.
  - exact (write_decode_error from_fen data w s e Hu Hdec).
Qed.

Lemma write_clock_out_of_range_panics_witness :
  write FenModel.from_fen (bytes clock_overflow_line) world0 = (Panic UnwrapSerde, world0).
Proof.
  eapply (write_clock_out_of_range_panics FenModel.from_fen (bytes clock_overflow_line) world0
            _ _ _ _ "wc" 4294967296).
  - vm_compute. reflexivity.
  - vm_compute. discriminate.
  - exact eq_refl.
  - reflexivity.
  - reflexivity.
  - reflexivity.
  - left. reflexivity.
  - reflexivity.
  - right. unfold u32_max. lia.
Defined.

(** Extra X8: a summary followed by an update, both handled without panic,
    leave the roster and the orientation of the summary and the board, last
    move and clocks of the update; the position parser has been called with
    the two patched position texts, in that order. *)
Theorem write_summary_then_update : forall from_fen d1 d2 w s1 s2 sm u r1 r2,
  from_utf8 d1 = Ok s1 -> decode_feed s1 = Ok (FeaturedTVGameSummary_ sm) ->
  from_utf8 d2 = Ok s2 -> decode_feed s2 = Ok (FeaturedTVGameUpdate_ u) ->
  fst (write from_fen d1 w) = Ret r1 ->
  fst (write from_fen d2 (snd (write from_fen d1 w))) = Ret r2 ->
  exists b,
    from_fen (update_fen u ++ " c - 1 1") = Ok b /\
    tv (snd (write from_fen d2 (snd (write from_fen d1 w)))) =
      mkLichessTV (summary_players sm) (update_last_move u) b (summary_orientation sm)
        (update_white_clock u) (update_black_clock u) /\
    fen_log (snd (write from_fen d2 (snd (write from_fen d1 w)))) =
      app (fen_log w) [summary_fen sm ++ " w c - 1 1"; update_fen u ++ " c - 1 1"].
Proof.
  intros from_fen d1 d2 w s1 s2 sm u r1 r2 Hu1 Hd1 Hu2 Hd2 Hr1 Hr2.
  pose proof (write_summary_run from_fen d1 w s1 sm Hu1 Hd1) as Hrun1. cbv zeta in Hrun1.
  destruct (from_fen (summary_fen sm ++ " w c - 1 1")) as [b1 | e] eqn:Hf1;
    rewrite Hrun1 in *; [| discriminate Hr1].
  match goal with |- context [snd ((do _ <- erase; do _ <- draw_chess_board; ret ?x) ?w1)] =>
    pose proof (redraw_frame x w1) as [Htv1 Hfl1];
    set (w2 := snd ((do _ <- erase; do _ <- draw_chess_board; ret x) w1)) in * end.
  pose proof (write_update_run from_fen d2 w2 s2 u Hu2 Hd2) as Hrun2. cbv zeta in Hrun2.
  destruct (from_fen (update_fen u ++ " c - 1 1")) as [b2 | e] eqn:Hf2;
    rewrite Hrun2 in *; [| discriminate Hr2].
  exists b2. split; [reflexivity |].
  match goal with |- context [snd ((do _ <- erase; do _ <- draw_chess_board; ret ?x) ?w3)] =>
    pose proof (redraw_frame x w3) as [Htv3 Hfl3] end.
  rewrite Htv3, Hfl3. cbn [tv fen_log]. rewrite Htv1, Hfl1. cbn [tv fen_log]. split.
  - reflexivity.
  - rewrite <- app_assoc. reflexivity.
Qed.

Lemma write_summary_then_update_witness :
  exists b,
    FenModel.from_fen (update_fen sample_update ++ " c - 1 1") = Ok b /\
    tv (snd (write FenModel.from_fen (bytes update_line)
               (snd (write FenModel.from_fen (bytes summary_line) world0)))) =
      mkLichessTV (summary_players sample_summary) (update_last_move sample_update) b
        (summary_orientation sample_summary)
        (update_white_clock sample_update) (update_black_clock sample_update) /\
    fen_log (snd (write FenModel.from_fen (bytes update_line)
               (snd (write FenModel.from_fen (bytes summary_line) world0)))) =
      app (fen_log world0) [summary_fen sample_summary ++ " w c - 1 1";
                            update_fen sample_update ++ " c - 1 1"].
Proof.
  apply (write_summary_then_update FenModel.from_fen (bytes summary_line) (bytes update_line)
           world0 summary_line update_line sample_summary sample_update
           (Ok (length (bytes summary_line))) (Ok (length (bytes update_line))));
    vm_compute; reflexivity.
Defined.

(* ------------------------------------------------------------------ *)
(** ** Further properties of the JSON parser: trailing whitespace *)

Lemma ws_cases : forall c, is_ws c = true ->
  c = " "%char \/ c = "009"%char \/ c = "010"%char \/ c = "013"%char.
Proof.
  intros [[] [] [] [] [] [] [] []] H; try discriminate H; auto.
Qed.

Lemma all_ws_stops : forall t, all_ws t = true -> stops_token t = true.
Proof. intros [| c t] H; [reflexivity |]. cbn in H |- *. apply andb_prop in H. tauto. Qed.

Lemma all_ws_app : forall r t, all_ws (r ++ t) = all_ws r && all_ws t.
Proof. induction r as [| c r IH]; intros t; [reflexivity |]. cbn. rewrite IH. apply andb_assoc. Qed.

Lemma append_empty_r : forall s, (s ++ EmptyString)%string = s.
Proof. induction s as [| c s IH]; [reflexivity |]. cbn. rewrite IH. reflexivity. Qed.

Lemma length_append : forall s t, String.length (s ++ t) = String.length s + String.length t.
Proof. induction s as [| c s IH]; intros t; [reflexivity |]. cbn. rewrite IH. reflexivity. Qed.

Lemma skip_ws_app : forall s t c r,
  skip_ws s = String c r -> skip_ws (s ++ t) = String c (r ++ t).
Proof.
  induction s as [| c0 s IH]; intros t c r H; [discriminate H |].
  cbn in H |- *. destruct (is_ws c0); [apply IH, H |].
  injection H as -> ->. reflexivity.
Qed.

Lemma ws_not_digit : forall c, is_ws c = true -> is_digit c = false.
Proof. intros c H. destruct (ws_cases c H) as [-> | [-> | [-> | ->]]]; reflexivity. Qed.

Lemma digits_app : forall s t acc k v k' r,
  stops_token t = true -> digits acc k s = (v, k', r) ->
  digits acc k (s ++ t) = (v, k', (r ++ t)%string).
Proof.
  induction s as [| c s IH]; intros t acc k v k' r Ht H.
  - cbn in H. injection H as <- <- <-. cbn.
    destruct t as [| c t]; [reflexivity |]. cbn in Ht |- *.
    rewrite (ws_not_digit c Ht). reflexivity.
  - cbn in H |- *. destruct (is_digit c).
    + apply IH; assumption.
    + injection H as <- <- <-. reflexivity.
Qed.
Lemma parse_str_body_app : forall n s t b r, String.length s < n ->
  parse_str_body s = Some (b, r) -> parse_str_body (s ++ t) = Some (b, (r ++ t)%string).
Proof.
  induction n as [| n IH]; intros s t b r Hl H; [inversion Hl |].
  destruct s as [| c s]; [discriminate H |].
  cbn [String.length] in Hl.
  destruct c as [[] [] [] [] [] [] [] []]; cbn in H |- *; try discriminate H;
    try (injection H as <- <-; reflexivity);
    try (destruct (parse_str_body s) as [[b' r'] |] eqn:E; [| discriminate H];
         rewrite (IH s t b' r' ltac:(lia) E); injection H as <- <-; reflexivity).
  (* the escape *)
  destruct s as [| e s]; [discriminate H |]. cbn [String.length] in Hl. cbn in H |- *.
  match type of H with match ?m with Some _ => _ | None => _ end = _ =>
    destruct m as [c' |]; [| discriminate H] end.
  destruct (parse_str_body s) as [[b' r'] |] eqn:E; [| discriminate H].
  rewrite (IH s t b' r' ltac:(lia) E). injection H as <- <-. reflexivity.
Qed.
Lemma prefix_app : forall lit s t,
  String.prefix lit s = true -> String.prefix lit (s ++ t) = true.
Proof.
  induction lit as [| x lit IH]; intros s t H; [destruct (s ++ t)%string; reflexivity |].
  destruct s as [| y s]; [discriminate H |]. cbn in H |- *.
  destruct (ascii_dec x y); [apply IH, H | discriminate H].
Qed.

Lemma prefix_length : forall lit s,
  String.prefix lit s = true -> String.length lit <= String.length s.
Proof.
  induction lit as [| x lit IH]; intros s H; cbn; [lia |].
  destruct s as [| y s]; [discriminate H |]. cbn in H |- *.
  destruct (ascii_dec x y); [apply IH in H; lia | discriminate H].
Qed.

Lemma substring_full : forall s, substring 0 (String.length s) s = s.
Proof. induction s as [| c s IH]; [reflexivity |]. cbn. rewrite IH. reflexivity. Qed.

Lemma substring_app_tail : forall s t n, n <= String.length s ->
  (substring n (String.length s - n) s ++ t)%string =
  substring n (String.length (s ++ t) - n) (s ++ t).
Proof.
  induction s as [| c s IH]; intros t n Hn.
  - destruct n; [| cbn in Hn; lia]. cbn. rewrite Nat.sub_0_r, substring_full. reflexivity.
  - destruct n as [| n].
    + rewrite !Nat.sub_0_r, !substring_full. reflexivity.
    + cbn [String.length append substring]. cbn [String.length] in Hn.
      apply IH. lia.
Qed.

Lemma parse_lit_app : forall lit v s t v' r,
  parse_lit lit v s = Some (v', r) -> parse_lit lit v (s ++ t) = Some (v', (r ++ t)%string).
Proof.
  intros lit v s t v' r H. unfold parse_lit in H |- *.
  destruct (String.prefix lit s) eqn:E; [| discriminate H].
  rewrite (prefix_app lit s t E). injection H as <- <-.
  rewrite substring_app_tail by (apply prefix_length; exact E). reflexivity.
Qed.
Lemma strip_sign_app : forall r t, stops_token t = true ->
  match (r ++ t)%string with
  | String "+" r2 => r2
  | String "-" r2 => r2
  | _ => (r ++ t)%string end =
  ((match r with
    | String "+" r2 => r2
    | String "-" r2 => r2
    | _ => r end) ++ t)%string.
Proof.
  intros [| c r] t Ht.
  - destruct t as [| c t]; [reflexivity |]. cbn in Ht.
    destruct (ws_cases c Ht) as [-> | [-> | [-> | ->]]]; reflexivity.
  - destruct c as [[] [] [] [] [] [] [] []]; reflexivity.
Qed.

Lemma exp_tail_app : forall fr s1 t b r, stops_token t = true ->
  match s1 with
  | String e r =>
      if (Ascii.eqb e "e"%char || Ascii.eqb e "E"%char) then
        let r1 := match r with
                  | String "+" r2 => r2
                  | String "-" r2 => r2
                  | _ => r end in
        match digits 0 0 r1 with
        | (_, O, _) => None
        | (_, _, r') => Some (true, r')
        end
      else Some (fr, s1)
  | EmptyString => Some (fr, s1)
  end = Some (b, r) ->
  match (s1 ++ t)%string with
  | String e r =>
      if (Ascii.eqb e "e"%char || Ascii.eqb e "E"%char) then
        let r1 := match r with
                  | String "+" r2 => r2
                  | String "-" r2 => r2
                  | _ => r end in
        match digits 0 0 r1 with
        | (_, O, _) => None
        | (_, _, r') => Some (true, r')
        end
      else Some (fr, (s1 ++ t)%string)
  | EmptyString => Some (fr, (s1 ++ t)%string)
  end = Some (b, (r ++ t)%string).
Proof.
  intros fr [| e s1] t b r Ht H.
  - injection H as <- <-. destruct t as [| c t]; [reflexivity |]. cbn in Ht.
    destruct (ws_cases c Ht) as [-> | [-> | [-> | ->]]]; reflexivity.
  - cbn [append]. destruct (Ascii.eqb e "e"%char || Ascii.eqb e "E"%char); [| injection H as <- <-; reflexivity].
    cbv zeta in H |- *. rewrite strip_sign_app by exact Ht.
    destruct (digits 0 0 _) as [[v k] r'] eqn:Ed.
    rewrite (digits_app _ t 0 0 v k r' Ht Ed).
    destruct k; [discriminate H |]. injection H as <- <-. reflexivity.
Qed.
Lemma parse_frac_exp_app : forall s t b r, stops_token t = true ->
  parse_frac_exp s = Some (b, r) -> parse_frac_exp (s ++ t) = Some (b, (r ++ t)%string).
Proof.
  intros s t b r Ht H. destruct s as [| c s].
  - cbn in H. injection H as <- <-. destruct t as [| c t]; [reflexivity |]. cbn in Ht.
    destruct (ws_cases c Ht) as [-> | [-> | [-> | ->]]]; reflexivity.
  - unfold parse_frac_exp in H |- *.
    destruct c as [[] [] [] [] [] [] [] []];
      try (match goal with |- context [String ?c s] =>
             apply (exp_tail_app false (String c s) t b r Ht); exact H end).
    (* the fraction *)
    cbn [append]. cbv beta iota in H |- *.
    destruct (digits 0 0 s) as [[v k] r'] eqn:Ed.
    rewrite (digits_app s t 0 0 v k r' Ht Ed).
    destruct k as [| k]; [discriminate H |].
    apply (exp_tail_app true r' t b r Ht). exact H.
Qed.
Lemma frac_cont_app : forall (neg : bool) (v0 : Z) x t v r, stops_token t = true ->
  match parse_frac_exp x with
  | None => None
  | Some (true, r') => Some (JFloat, r')
  | Some (false, r') => Some (JNum (if neg then Z.opp v0 else v0), r')
  end = Some (v, r) ->
  match parse_frac_exp (x ++ t) with
  | None => None
  | Some (true, r') => Some (JFloat, r')
  | Some (false, r') => Some (JNum (if neg then Z.opp v0 else v0), r')
  end = Some (v, (r ++ t)%string).
Proof.
  intros neg v0 x t v r Ht H.
  destruct (parse_frac_exp x) as [[fr r'] |] eqn:Ef; [| discriminate H].
  rewrite (parse_frac_exp_app x t fr r' Ht Ef).
  destruct fr; injection H as <- <-; reflexivity.
Qed.

Lemma int_part_app : forall (neg : bool) s0 t v r, stops_token t = true ->
  (let int_part :=
     match s0 with
     | String "0" r => Some (0%Z, r)
     | String c _ =>
         if is_digit c then
           match digits 0 0 s0 with (v, _, r) => Some (v, r) end
         else None
     | EmptyString => None
     end in
   match int_part with
   | None => None
   | Some (v, r) =>
       match parse_frac_exp r with
       | None => None
       | Some (true, r') => Some (JFloat, r')
       | Some (false, r') => Some (JNum (if neg then Z.opp v else v), r')
       end
   end) = Some (v, r) ->
  (let int_part :=
     match (s0 ++ t)%string with
     | String "0" r => Some (0%Z, r)
     | String c _ =>
         if is_digit c then
           match digits 0 0 (s0 ++ t) with (v, _, r) => Some (v, r) end
         else None
     | EmptyString => None
     end in
   match int_part with
   | None => None
   | Some (v, r) =>
       match parse_frac_exp r with
       | None => None
       | Some (true, r') => Some (JFloat, r')
       | Some (false, r') => Some (JNum (if neg then Z.opp v else v), r')
       end
   end) = Some (v, (r ++ t)%string).
Proof.
  intros neg s0 t v r Ht H. destruct s0 as [| c s0]; [discriminate H |].
  destruct (digits 0 0 (String c s0)) as [[v1 k1] r1] eqn:Ed.
  pose proof (digits_app (String c s0) t 0 0 v1 k1 r1 Ht Ed) as Ed'.
  cbv zeta in H |- *. rewrite Ed'.
  cbn [append]. revert H.
  destruct c as [[] [] [] [] [] [] [] []]; cbv beta iota;
    try (apply frac_cont_app; exact Ht);
    (destruct (is_digit _); [apply frac_cont_app; exact Ht | discriminate]).
Qed.

Lemma parse_number_app : forall s t v r, stops_token t = true ->
  parse_number s = Some (v, r) -> parse_number (s ++ t) = Some (v, (r ++ t)%string).
Proof.
  intros s t v r Ht H. destruct s as [| c s]; [discriminate H |].
  unfold parse_number in H |- *. revert H.
  destruct c as [[] [] [] [] [] [] [] []];
    first [ exact (int_part_app true s t v r Ht)
          | match goal with |- context [String ?c s] =>
              exact (int_part_app false (String c s) t v r Ht) end ].
Qed.
Lemma parse_members_empty : forall f, parse_members f EmptyString = None.
Proof. intros [| f]; reflexivity. Qed.

Lemma parse_value_empty : forall f, parse_value f EmptyString = None.
Proof. intros [| f]; reflexivity. Qed.

Lemma parse_elements_empty : forall f, parse_elements f EmptyString = None.
Proof. intros [| f]; [reflexivity |]. cbn. rewrite parse_value_empty. reflexivity. Qed.

Section ParseExtension.

Variables g g' : nat.
Variable t : string.
Hypothesis Ht : stops_token t = true.

Hypothesis IHv : forall s v r,
  parse_value g s = Some (v, r) -> parse_value g' (s ++ t) = Some (v, (r ++ t)%string).
Hypothesis IHm : forall s kv r,
  parse_members g s = Some (kv, r) -> parse_members g' (s ++ t) = Some (kv, (r ++ t)%string).
Hypothesis IHe : forall s l r,
  parse_elements g s = Some (l, r) -> parse_elements g' (s ++ t) = Some (l, (r ++ t)%string).

Lemma parse_value_step : forall s v r,
  parse_value (S g) s = Some (v, r) -> parse_value (S g') (s ++ t) = Some (v, (r ++ t)%string).
Proof.
  intros s v r H. cbn [parse_value] in H |- *.
  destruct (skip_ws s) as [| c x] eqn:Es; [discriminate H |].
  rewrite (skip_ws_app s t c x Es). revert H.
  destruct c as [[] [] [] [] [] [] [] []];
    first [ exact (parse_lit_app "true" (JBool true) (String "t" x) t v r)
          | exact (parse_lit_app "false" (JBool false) (String "f" x) t v r)
          | exact (parse_lit_app "null" JNull (String "n" x) t v r)
          | match goal with |- context [String ?c (x ++ t)] =>
              exact (parse_number_app (String c x) t v r Ht) end
          | idtac ].
  (* the remaining cases: a string, an array, an object *)
  all: cbv beta iota; intros H.
  all: lazymatch type of H with
  | context [parse_str_body _] =>
      destruct (parse_str_body x) as [[str r'] |] eqn:E; [| cbv beta iota in H; discriminate H];
      rewrite (parse_str_body_app (S (String.length x)) x t str r' (Nat.lt_succ_diag_r _) E);
      injection H as <- <-; reflexivity
  | context [parse_elements _ _] =>
      destruct (skip_ws x) as [| c2 x2] eqn:E2;
      [ rewrite parse_elements_empty in H; cbv beta iota in H; discriminate H
      | rewrite (skip_ws_app x t c2 x2 E2); revert H;
        destruct c2 as [[] [] [] [] [] [] [] []]; cbv beta iota; intros H;
        first [ injection H as <- <-; reflexivity
              | destruct (parse_elements g _) as [[l r''] |] eqn:E3; [| cbv beta iota in H; discriminate H];
                match goal with |- context [parse_elements g' (String ?c (x2 ++ t))] =>
                  change (String c (x2 ++ t)) with (String c x2 ++ t)%string end;
                rewrite (IHe _ l r'' E3); injection H as <- <-; reflexivity ] ]
  | context [parse_members _ _] =>
      destruct (skip_ws x) as [| c2 x2] eqn:E2;
      [ rewrite parse_members_empty in H; cbv beta iota in H; discriminate H
      | rewrite (skip_ws_app x t c2 x2 E2); revert H;
        destruct c2 as [[] [] [] [] [] [] [] []]; cbv beta iota; intros H;
        first [ injection H as <- <-; reflexivity
              | destruct (parse_members g _) as [[kv r''] |] eqn:E3; [| cbv beta iota in H; discriminate H];
                match goal with |- context [parse_members g' (String ?c (x2 ++ t))] =>
                  change (String c (x2 ++ t)) with (String c x2 ++ t)%string end;
                rewrite (IHm _ kv r'' E3); injection H as <- <-; reflexivity ] ]
  end.
Qed.


Ltac no_parse H := cbv beta iota in H; discriminate H.

Lemma parse_members_step : forall s kv r,
  parse_members (S g) s = Some (kv, r) -> parse_members (S g') (s ++ t) = Some (kv, (r ++ t)%string).
Proof.
  intros s kv r H. cbn [parse_members] in H |- *.
  destruct (skip_ws s) as [| c x] eqn:Es; [no_parse H |].
  rewrite (skip_ws_app s t c x Es). revert H.
  destruct c as [[] [] [] [] [] [] [] []]; cbv beta iota; intros H; try no_parse H.
  destruct (parse_str_body x) as [[k r1] |] eqn:E; [| no_parse H].
  rewrite (parse_str_body_app (S (String.length x)) x t k r1 (Nat.lt_succ_diag_r _) E).
  destruct (skip_ws r1) as [| c1 r2] eqn:E1; [no_parse H |].
  rewrite (skip_ws_app r1 t c1 r2 E1). revert H.
  destruct c1 as [[] [] [] [] [] [] [] []]; cbv beta iota; intros H; try no_parse H.
  destruct (parse_value g r2) as [[v r3] |] eqn:E2; [| no_parse H].
  rewrite (IHv r2 v r3 E2).
  destruct (skip_ws r3) as [| c3 r4] eqn:E3; [no_parse H |].
  rewrite (skip_ws_app r3 t c3 r4 E3). revert H.
  destruct c3 as [[] [] [] [] [] [] [] []]; cbv beta iota; intros H; try no_parse H.
  all: first
    [ injection H as <- <-; reflexivity
    | destruct (parse_members g r4) as [[kv' r5] |] eqn:E4; [| no_parse H];
      rewrite (IHm r4 kv' r5 E4); injection H as <- <-; reflexivity ].
Qed.

Lemma parse_elements_step : forall s l r,
  parse_elements (S g) s = Some (l, r) -> parse_elements (S g') (s ++ t) = Some (l, (r ++ t)%string).
Proof.
  intros s l r H. cbn [parse_elements] in H |- *.
  destruct (parse_value g s) as [[v r1] |] eqn:E; [| no_parse H].
  rewrite (IHv s v r1 E).
  destruct (skip_ws r1) as [| c r2] eqn:E1; [no_parse H |].
  rewrite (skip_ws_app r1 t c r2 E1). revert H.
  destruct c as [[] [] [] [] [] [] [] []]; cbv beta iota; intros H; try no_parse H.
  all: first
    [ injection H as <- <-; reflexivity
    | destruct (parse_elements g r2) as [[l' r3] |] eqn:E2; [| no_parse H];
      rewrite (IHe r2 l' r3 E2); injection H as <- <-; reflexivity ].
Qed.

End ParseExtension.

(** Appending a string that cannot continue a token (empty, or starting with
    whitespace) to the input, with at least as much fuel, leaves every parse
    that succeeded unchanged, the remainder extended by that string. *)
Lemma parse_extend : forall f f' t, f <= f' -> stops_token t = true ->
  (forall s v r, parse_value f s = Some (v, r) -> parse_value f' (s ++ t) = Some (v, (r ++ t)%string)) /\
  (forall s kv r, parse_members f s = Some (kv, r) -> parse_members f' (s ++ t) = Some (kv, (r ++ t)%string)) /\
  (forall s l r, parse_elements f s = Some (l, r) -> parse_elements f' (s ++ t) = Some (l, (r ++ t)%string)).
Proof.
  induction f as [| g IH]; intros f' t Hle Ht.
  - repeat split; intros s x r H; discriminate H.
  - destruct f' as [| g']; [lia |].
    destruct (IH g' t ltac:(lia) Ht) as (IHv & IHm & IHe).
    split; [| split].
    + eapply parse_value_step; eassumption.
    + eapply parse_members_step; eassumption.
    + eapply parse_elements_step; eassumption.
Qed.

Lemma from_str_app_ws : forall T (de : json -> result T serde_error) s t x,
  all_ws t = true -> from_str de s = Ok x -> from_str de (s ++ t) = Ok x.
Proof.
  intros T de s t x Ht H. unfold from_str in H |- *.
  destruct (skip_ws s) as [| c r] eqn:Es; [discriminate H |].
  rewrite (skip_ws_app s t c r Es).
  destruct (parse_value (S (String.length s)) s) as [[v rest] |] eqn:Ep; [| discriminate H].
  destruct (parse_extend (S (String.length s)) (S (String.length (s ++ t))) t) as (Hv & _ & _).
  - rewrite length_append. lia.
  - apply all_ws_stops. exact Ht.
  - rewrite (Hv s v rest Ep), all_ws_app, Ht, andb_true_r. exact H.
Qed.

Lemma string_of_list_byte_cons : forall b l,
  string_of_list_byte (b :: l) = String (ascii_of_byte b) (string_of_list_byte l).
Proof. reflexivity. Qed.

Lemma string_of_list_byte_app : forall l m,
  string_of_list_byte (l ++ m) = (string_of_list_byte l ++ string_of_list_byte m)%string.
Proof.
  induction l as [| b l IH]; intros m; [reflexivity |].
  rewrite <- app_comm_cons, !string_of_list_byte_cons, IH. reflexivity.
Qed.

Lemma utf8_valid_app : forall n l m, length l <= n ->
  utf8_valid l = true -> utf8_valid m = true -> utf8_valid (l ++ m) = true.
Proof.
  induction n as [| n IH]; intros l m Hl H1 H2.
  - destruct l; [exact H2 | cbn in Hl; lia].
  - destruct l as [| b r]; [exact H2 |]. cbn in Hl. cbn [app utf8_valid] in H1 |- *.
    destruct (b <? 128)%nat; [apply IH; auto; lia |].
    destruct (in_range 194 223 b).
    { destruct r as [| c1 r1]; [discriminate H1 |]. cbn [app length] in *.
      apply andb_prop in H1 as [Hc Hr]. rewrite Hc, (IH r1 m); auto; lia. }
    destruct (in_range 224 239 b).
    { destruct r as [| c1 [| c2 r2]]; try discriminate H1. cbn [app length] in *.
      apply andb_prop in H1 as [Hc Hr]. rewrite Hc, (IH r2 m); auto; lia. }
    destruct (in_range 240 244 b).
    { destruct r as [| c1 [| c2 [| c3 r3]]]; try discriminate H1. cbn [app length] in *.
      apply andb_prop in H1 as [Hc Hr]. rewrite Hc, (IH r3 m); auto; lia. }
    discriminate H1.
Qed.

Lemma ws_byte_ascii : forall b, is_ws (ascii_of_byte b) = true -> (Byte.to_nat b <? 128)%nat = true.
Proof. intros b; destruct b; cbv; congruence. Qed.

Lemma all_ws_utf8_valid : forall ws,
  all_ws (string_of_list_byte ws) = true -> utf8_valid (map Byte.to_nat ws) = true.
Proof.
  induction ws as [| b ws IH]; intros H; [reflexivity |].
  rewrite string_of_list_byte_cons in H. cbn [all_ws] in H. apply andb_prop in H as [Hb Hr].
  cbn [map utf8_valid]. rewrite (ws_byte_ascii b Hb). exact (IH Hr).
Qed.

Lemma from_utf8_app_ws : forall data ws s,
  all_ws (string_of_list_byte ws) = true -> from_utf8 data = Ok s ->
  from_utf8 (data ++ ws) = Ok (s ++ string_of_list_byte ws)%string.
Proof.
  intros data ws s Hws H. unfold from_utf8 in H |- *.
  destruct (utf8_valid (map Byte.to_nat data)) eqn:Hv; [| discriminate H].
  injection H as <-. rewrite map_app.
  rewrite (utf8_valid_app (length (map Byte.to_nat data)) _ _ (le_n _) Hv (all_ws_utf8_valid ws Hws)).
  rewrite string_of_list_byte_app. reflexivity.
Qed.

(** Extra X9: bytes of whitespace after a line that decodes (the newline
    that ends each line of the stream) change nothing: the plane, the
    board, the log of [from_fen] calls and any panic stay as they are, and
    only the number of bytes reported written grows. *)
Theorem write_trailing_whitespace : forall from_fen data ws s e w,
  from_utf8 data = Ok s -> decode_feed s = Ok e ->
  all_ws (string_of_list_byte ws) = true ->
  snd (write from_fen (data ++ ws) w) = snd (write from_fen data w) /\
  fst (write from_fen (data ++ ws) w) =
    match fst (write from_fen data w) with
    | Ret _ => Ret (Ok (length data + length ws))
    | Panic p => Panic p
    end.
Proof.
  intros from_fen data ws s e w Hu Hd Hws.
  pose proof (from_utf8_app_ws data ws s Hws Hu) as Hu'.
  assert (Hd' : decode_feed (s ++ string_of_list_byte ws) = Ok e)
    by (apply from_str_app_ws; assumption).
  unfold write. cbv [bind unwrap ret].
  rewrite Hu, Hu', Hd, Hd'.
  repeat match goal with
         | |- context [match ?X with (_, _) => _ end] =>
             let o := fresh "o" in let w' := fresh "w" in
             destruct X as [o w']; destruct o
         end;
  cbn; rewrite ?length_app; split; reflexivity.
Qed.

Lemma write_trailing_whitespace_witness :
  snd (write FenModel.from_fen (bytes update_line ++ bytes nl) world0) =
    snd (write FenModel.from_fen (bytes update_line) world0) /\
  fst (write FenModel.from_fen (bytes update_line ++ bytes nl) world0) =
    match fst (write FenModel.from_fen (bytes update_line) world0) with
    | Ret _ => Ret (Ok (length (bytes update_line) + length (bytes nl)))
    | Panic p => Panic p
    end.
Proof.
  apply (write_trailing_whitespace FenModel.from_fen (bytes update_line) (bytes nl)
           update_line (FeaturedTVGameUpdate_ sample_update) world0);
    vm_compute; reflexivity.
Defined.
